(** * html2pdf: pagination and page compositing of [src/pdf.js]

    A shallow embedding of [outputPdf] and of the methods it installs on
    [jsPDF.API] ([addBlank], [toCanvas], [addHeader], [addFooter],
    [output2]), together with the properties of the layout scanner
    ([splitElement]), of the two page loops ([outputWithAdaptive],
    [outputWithFixedSize]) and of the header and footer cache.

    Conventions of the embedding.
    - A JavaScript number is an exact rational ([Q]); [Math.ceil] is
      [Qceiling].  IEEE rounding, NaN and the infinities are not modelled
      there, so a division is read where its divisor is not zero.  The
      layout scanner is also given over an interface of numbers
      ([ScannerOver]), with the exact rationals and the IEEE 754 binary64
      numbers of JavaScript as instances, for the properties that depend on
      rounding.
    - The DOM is a tree of [Node] records carrying the fields the code reads
      ([nodeType], [dataset], [offsetWidth], [offsetHeight], [childNodes]).
    - [html2canvas] and the drawing primitives of jsPDF are external.  The
      rasterizer is a parameter of the development that may reject.  The
      state holds the calls made to it, in order, the drawing calls received
      by the jsPDF instance, page by page, and the two cache fields
      [__header] and [__footer] of that instance.
    - [async] functions run one after the other: each [await] is a bind of a
      state and exception monad, and a rejected promise is a thrown error. *)

From Stdlib Require Import QArith Qround Qminmax ZArith List Lia Lqa.
From Stdlib Require PrimFloat FloatOps Uint63.
From stdpp Require Import gmap strings.
Import ListNotations.

Local Open Scope Q_scope.

(** ** Numbers *)

Definition A4_WIDTH : Q := 59228 # 100.
Definition A4_HEIGHT : Q := 84189 # 100.

(** [Math.ceil] on a rational, as a number again. *)
Definition Math_ceil (q : Q) : Q := inject_Z (Qceiling q).

Fixpoint Qsum (l : list Q) : Q :=
  match l with
  | [] => 0
  | q :: l' => q + Qsum l'
  end.

(** Two sequences of numbers denoting the same values. *)
Definition Qlist_eq (l1 l2 : list Q) : Prop := Forall2 Qeq l1 l2.

(** ** The DOM *)

#[local] Set Warnings "-register-all,-notation-for-abbreviation".

Inductive Node : Type := mkNode {
  nodeType : Z;
  dataset : gmap string string;
  offsetWidth : Q;
  offsetHeight : Q;
  childNodes : list Node
}.

Section Node_induction.
Variable P : Node -> Prop.
Hypothesis step : forall nt ds ow oh cs,
  Forall P cs -> P (mkNode nt ds ow oh cs).

Fixpoint Node_nested_ind (n : Node) : P n :=
  match n with
  | mkNode nt ds ow oh cs =>
      step nt ds ow oh cs
        ((fix children (l : list Node) : Forall P l :=
            match l with
            | [] => @List.Forall_nil Node P
            | c :: l' =>
                @List.Forall_cons Node P c l' (Node_nested_ind c) (children l')
            end) cs)
  end.
End Node_induction.

(** ** The layout scanner: [splitElement] of [outputWithAdaptive] *)

Module Scanner.

(** The two variables [res] and [pos] captured by [updatePos]. *)
Record ScanState : Type := mkScan { res : list Q; pos : Q }.

Section Scan.
Variables (contentWidth contentHeight : Q) (itemName groupName : string).
(** [const elementWidth = element.offsetWidth] *)
Variable elementWidth : Q.

Definition updatePos (height : Q) (st : ScanState) : ScanState :=
  if Qle_bool (pos st + height) contentHeight
  then mkScan (res st) (pos st + height)
  else mkScan (res st ++ [pos st]) height.

(** The height handed to [updatePos] for an item. *)
Definition scaledHeight (one : Node) : Q :=
  contentWidth / elementWidth * offsetHeight one.

(** The callback of [nodes.forEach] in [traversingNodes]; a group recurses
    into its [childNodes] from left to right. *)
Fixpoint traversingNode (one : Node) (st : ScanState) : ScanState :=
  if negb (nodeType one =? 1)%Z then st
  else match dataset one !! itemName with
       | Some _ => updatePos (scaledHeight one) st
       | None =>
           match dataset one !! groupName with
           | Some _ =>
               fold_left (fun s c => traversingNode c s) (childNodes one) st
           | None => st
           end
       end.

Definition traversingNodes (nodes : list Node) (st : ScanState) : ScanState :=
  fold_left (fun s c => traversingNode c s) nodes st.

(** The scaled heights of the items the traversal meets, in document
    order: the arguments of the successive calls of [updatePos]. *)
Fixpoint itemHeightsOf (one : Node) : list Q :=
  if negb (nodeType one =? 1)%Z then []
  else match dataset one !! itemName with
       | Some _ => [scaledHeight one]
       | None =>
           match dataset one !! groupName with
           | Some _ => flat_map itemHeightsOf (childNodes one)
           | None => []
           end
       end.

Definition itemHeights (nodes : list Node) : list Q :=
  flat_map itemHeightsOf nodes.

(** The run of [updatePos] over a sequence of heights. *)
Definition updateAll (hs : list Q) (st : ScanState) : ScanState :=
  fold_left (fun s h => updatePos h s) hs st.

Definition finish (st : ScanState) : list Q := res st ++ [pos st].
End Scan.

(** [splitElement]: [res = []], [pos = 0], traverse [element.childNodes],
    then [res.push(pos)]. *)
Definition splitElement (element : Node) (contentWidth contentHeight : Q)
    (itemName groupName : string) : list Q :=
  finish (traversingNodes contentWidth contentHeight itemName groupName
            (offsetWidth element) (childNodes element) (mkScan [] 0)).

(** An entry is in bounds when it fits the page, or is one item of [hs] that
    is taller than the page on its own. *)
Definition inBounds (contentHeight : Q) (hs : list Q) (e : Q) : Prop :=
  e <= contentHeight \/ (contentHeight < e /\ In e hs).

(** The heights of the items of [element], scaled as [splitElement] does. *)
Definition scaledItems (element : Node) (contentWidth : Q)
    (itemName groupName : string) : list Q :=
  itemHeights contentWidth itemName groupName (offsetWidth element)
    (childNodes element).

End Scanner.

(** ** Values, bitmaps and the state of one generation call *)

(** A value passed as [element], [header] or [footer]. *)
Inductive JsValue : Type :=
| JsUndefined
| JsNull
| JsBoolean (b : bool)
| JsNumber (q : Q)
| JsString (s : string)
| JsNode (n : Node).

(** [v instanceof HTMLElement], with the element when the test holds: the
    DOM nodes of type 1. *)
Definition as_HTMLElement (v : JsValue) : option Node :=
  match v with
  | JsNode n => if (nodeType n =? 1)%Z then Some n else None
  | _ => None
  end.

(** What [html2canvas] resolves to: [canvas.width], [canvas.height] and
    [canvas.toDataURL('image/jpeg', 1.0)]. *)
Record Canvas : Type := mkCanvas {
  canvas_width : Q;
  canvas_height : Q;
  toDataURL : string
}.

(** The object [{ width, height, data }] returned by [toCanvas]. *)
Record Image : Type := mkImage { width : Q; height : Q; data : string }.

(** The drawing primitives of jsPDF the code calls. *)
Inductive DrawOp : Type :=
| Op_addImage (imageData format : string) (x y w h : Q)
| Op_setFillColor (r g b : Z)
| Op_rect (x y w h : Q) (style : string).

Definition Page : Type := list DrawOp.

(** What [output2] hands back, by the name and the pages it is made from.
    The [type] of a [File] is the constant ['application/pdf']; its
    [lastModified], the clock at the call, is not kept. *)
Inductive Artifact : Type :=
| FileOf (filename : string) (document : list Page)
| Saved (filename : string)
| Output (outputType : string) (document : list Page).

Inductive Error : Type :=
| Error_ (message : string)
| Rejected (element : Node).

Inductive Result (A : Type) : Type :=
| Ok (a : A)
| Throw (e : Error).
Arguments Ok {A} a.
Arguments Throw {A} e.

(** The rasterizer calls made so far, the jsPDF instance (its finished
    pages, the page being drawn, the two cache fields) and the artifacts
    written by [save] and [output]. *)
Record State : Type := mkState {
  html2canvas_calls : list Node;
  finished : list Page;
  current : Page;
  __header : option Image;
  __footer : option Image;
  exported : list Artifact
}.

(** The pages of the document, in order. *)
Definition pages (s : State) : list Page := finished s ++ [current s].

Definition M (A : Type) : Type := State -> Result A * State.

Definition ret {A} (a : A) : M A := fun s => (Ok a, s).

Definition bind {A B} (m : M A) (f : A -> M B) : M B :=
  fun s => match m s with
           | (Ok a, s') => f a s'
           | (Throw e, s') => (Throw e, s')
           end.

Definition throw {A} (e : Error) : M A := fun s => (Throw e, s).

Notation "x <- m ;; k" := (bind m (fun x => k))
  (at level 100, m at next level, right associativity).
Notation "m ;; k" := (bind m (fun _ => k))
  (at level 100, right associativity).

(** [if (c) { m }] *)
Definition when (c : bool) (m : M unit) : M unit := if c then m else ret tt.

(** [for (const x of xs) { body(x) }] *)
Fixpoint forEach {A} (xs : list A) (body : A -> M unit) : M unit :=
  match xs with
  | [] => ret tt
  | x :: xs' => body x ;; forEach xs' body
  end.

(** *** jsPDF primitives *)

(** [new jsPDF({...})]: one empty page, no cache field set. *)
Definition new_jsPDF : M unit :=
  fun s => (Ok tt, mkState (html2canvas_calls s) [] [] None None (exported s)).

Definition draw (op : DrawOp) : M unit :=
  fun s => (Ok tt, mkState (html2canvas_calls s) (finished s)
                     (current s ++ [op]) (__header s) (__footer s)
                     (exported s)).

Definition addPage : M unit :=
  fun s => (Ok tt, mkState (html2canvas_calls s)
                     (finished s ++ [current s]) []
                     (__header s) (__footer s) (exported s)).

Definition get_header : M (option Image) := fun s => (Ok (__header s), s).
Definition get_footer : M (option Image) := fun s => (Ok (__footer s), s).

Definition set_header (i : Image) : M unit :=
  fun s => (Ok tt, mkState (html2canvas_calls s) (finished s) (current s)
                     (Some i) (__footer s) (exported s)).

Definition set_footer (i : Image) : M unit :=
  fun s => (Ok tt, mkState (html2canvas_calls s) (finished s) (current s)
                     (__header s) (Some i) (exported s)).

Definition export (mk : list Page -> Artifact) : M Artifact :=
  fun s => let a := mk (pages s) in
           (Ok a, mkState (html2canvas_calls s) (finished s) (current s)
                    (__header s) (__footer s) (exported s ++ [a])).

(** ** The methods added to [jsPDF.API] and [outputPdf] *)

Module Options.
(** The argument of [outputPdf], its defaults filled in; [x] and [y] are
    [None] when [== null]. *)
Record t : Type := mk {
  element : JsValue;
  contentWidth : Q;
  contentHeight : Q;
  outputType : string;
  filename : string;
  x : option Q;
  y : option Q;
  header : JsValue;
  footer : JsValue;
  headerOnlyFirst : bool;
  footerOnlyLast : bool;
  mode : string;
  itemName : string;
  groupName : string
}.

(** The defaults of the parameter list of [outputPdf]. *)
Definition defaults (element : JsValue) : t :=
  mk element 550 800 "save" "document.pdf" None None JsUndefined JsUndefined
     true true "adaptive" "item" "group".
End Options.

Module Params.
(** The object [params] handed to the two page loops ([pdf] is the state). *)
Record t : Type := mk {
  element : Node;
  contentWidth : Q;
  contentHeight : Q;
  itemName : string;
  groupName : string;
  baseX : Q;
  baseY : Q;
  width : Q;
  height : Q;
  addImage : Q -> Q -> M unit;
  addHeader : bool -> M unit;
  addFooter : bool -> M unit
}.
End Params.

Section Generation.
(** The rasterizer; [None] is a rejected promise. *)
Variable html2canvas : Node -> option Canvas.

Definition call_html2canvas (element : Node) : M Canvas :=
  fun s =>
    let s' := mkState (html2canvas_calls s ++ [element]) (finished s)
                (current s) (__header s) (__footer s) (exported s) in
    match html2canvas element with
    | Some c => (Ok c, s')
    | None => (Throw (Rejected element), s')
    end.

Definition output2 (outputType filename : string) : M Artifact :=
  if String.eqb outputType "file" then export (FileOf filename)
  else if String.eqb outputType "save" then export (fun _ => Saved filename)
  else export (Output outputType).

Definition addBlank (x y w h : Q) : M unit :=
  draw (Op_setFillColor 255 255 255) ;;
  draw (Op_rect x y (Math_ceil w) (Math_ceil h) "F").

Definition toCanvas (element : Node) (w : Q) : M Image :=
  canvas <- call_html2canvas element ;;
  let canvasWidth := canvas_width canvas in
  let canvasHeight := canvas_height canvas in
  let h := (w / canvasWidth) * canvasHeight in
  let canvasData := toDataURL canvas in
  ret (mkImage w h canvasData).

Definition addHeader (x w : Q) (header : JsValue) : M unit :=
  match as_HTMLElement header with
  | None => ret tt
  | Some el =>
      cached <- get_header ;;
      hd <- match cached with
            | Some hd => ret hd
            | None => hd <- toCanvas el w ;; set_header hd ;; ret hd
            end ;;
      draw (Op_addImage (data hd) "JPEG" x 0 w (height hd))
  end.

Definition addFooter (x w : Q) (footer : JsValue) : M unit :=
  match as_HTMLElement footer with
  | None => ret tt
  | Some el =>
      cached <- get_footer ;;
      ft <- match cached with
            | Some ft => ret ft
            | None => ft <- toCanvas el w ;; set_footer ft ;; ret ft
            end ;;
      draw (Op_addImage (data ft) "JPEG" x (A4_HEIGHT - height ft) w
              (height ft))
  end.

(** [outputWithFixedSize]: [arr] is [[0, ..., pageNum - 1]]. *)
Definition outputWithFixedSize (p : Params.t) : M unit :=
  let pageNum := Qceiling (Params.height p / Params.contentHeight p) in
  let arr := seq 0 (Z.to_nat pageNum) in
  forEach arr (fun i =>
    Params.addImage p (Params.baseX p)
      (Params.baseY p - inject_Z (Z.of_nat i) * Params.contentHeight p) ;;
    let isFirst := (i =? 0)%nat in
    let isLast := (i =? length arr - 1)%nat in
    when (negb isFirst) (addBlank 0 0 A4_WIDTH (Params.baseY p)) ;;
    when (negb isLast)
      (addBlank 0 (Params.baseY p + Params.contentHeight p) A4_WIDTH
         (A4_HEIGHT - (Params.baseY p + Params.contentHeight p))) ;;
    Params.addHeader p isFirst ;;
    Params.addFooter p isLast ;;
    when (negb isLast) addPage).

(** The [for await] loop of [outputWithAdaptive] over what is left of
    [elements]; [len] is [elements.length]. *)
Fixpoint adaptiveLoop (p : Params.t) (len : nat) (elements : list Q)
    (accumulationHeight : Q) (currentPage : nat) : M unit :=
  match elements with
  | [] => ret tt
  | elementHeight :: rest =>
      Params.addImage p (Params.baseX p)
        (Params.baseY p - accumulationHeight) ;;
      let accumulationHeight := accumulationHeight + elementHeight in
      let isFirst := (currentPage =? 0)%nat in
      let isLast := (currentPage =? len - 1)%nat in
      when (negb isFirst) (addBlank 0 0 A4_WIDTH (Params.baseY p)) ;;
      when (negb isLast)
        (addBlank 0 (Params.baseY p + elementHeight) A4_WIDTH
           (A4_HEIGHT - (Params.baseY p + elementHeight))) ;;
      Params.addHeader p isFirst ;;
      Params.addFooter p isLast ;;
      when (negb isLast) addPage ;;
      adaptiveLoop p len rest accumulationHeight (currentPage + 1)
  end.

(** The page loop of [outputWithAdaptive] for a given break sequence. *)
Definition composeAdaptive (p : Params.t) (elements : list Q) : M unit :=
  adaptiveLoop p (length elements) elements 0 0%nat.

Definition outputWithAdaptive (p : Params.t) : M unit :=
  let elements :=
    Scanner.splitElement (Params.element p) (Params.contentWidth p)
      (Params.contentHeight p) (Params.itemName p) (Params.groupName p) in
  composeAdaptive p elements.

(** The object [params] built by [outputPdf] once the root is rasterized,
    with the three closures [addImage], [addHeader] and [addFooter]. *)
Definition paramsOf (o : Options.t) (element : Node) (img : Image)
    : Params.t :=
  let contentWidth := Options.contentWidth o in
  let contentHeight := Options.contentHeight o in
  let baseX := match Options.x o with
               | None => (A4_WIDTH - contentWidth) / 2
               | Some x => x
               end in
  let baseY := match Options.y o with
               | None => (A4_HEIGHT - contentHeight) / 2
               | Some y => y
               end in
  Params.mk element contentWidth contentHeight
    (Options.itemName o) (Options.groupName o)
    baseX baseY (width img) (height img)
    (fun _x _y => draw (Op_addImage (data img) "JPEG" _x _y
                          (width img) (height img)))
    (fun isFirst =>
       when (isFirst || negb (Options.headerOnlyFirst o))
         (addHeader baseX contentWidth (Options.header o)))
    (fun isLast =>
       when (isLast || negb (Options.footerOnlyLast o))
         (addFooter baseX contentWidth (Options.footer o))).

Definition outputPdf (o : Options.t) : M Artifact :=
  match as_HTMLElement (Options.element o) with
  | None => throw (Error_ "The root element must be HTMLElement.")
  | Some element =>
      new_jsPDF ;;
      img <- toCanvas element (Options.contentWidth o) ;;
      let params := paramsOf o element img in
      (if String.eqb (Options.mode o) "adaptive"
       then outputWithAdaptive params
       else outputWithFixedSize params) ;;
      output2 (Options.outputType o) (Options.filename o)
  end.
End Generation.

(** ** Vocabulary of the page compositor *)

Section Compositor.
Variable html2canvas : Node -> option Canvas.

(** What [toCanvas(element, w)] resolves to, when [html2canvas] does. *)
Definition rendered (element : Node) (w : Q) : option Image :=
  match html2canvas element with
  | Some c => Some (mkImage w ((w / canvas_width c) * canvas_height c)
                      (toDataURL c))
  | None => None
  end.

(** The rasterization of [v], when [v] is an element, succeeds. *)
Definition rasterizes (v : JsValue) : Prop :=
  match as_HTMLElement v with
  | Some el => html2canvas el <> None
  | None => True
  end.

(** The bitmap a stamp of [v] draws, given the cache field: none when [v]
    is not an element. *)
Definition bandImage (cache : option Image) (v : JsValue) (w : Q)
    : option Image :=
  match as_HTMLElement v with
  | None => None
  | Some el => match cache with
               | Some i => Some i
               | None => rendered el w
               end
  end.

(** The rasterizer call a stamp of [v] still has to make. *)
Definition pending (cache : option Image) (v : JsValue) : list Node :=
  match as_HTMLElement v, cache with
  | Some el, None => [el]
  | _, _ => []
  end.
End Compositor.

Definition headerOp (x w : Q) (hd : Image) : DrawOp :=
  Op_addImage (data hd) "JPEG" x 0 w (height hd).

Definition footerOp (x w : Q) (ft : Image) : DrawOp :=
  Op_addImage (data ft) "JPEG" x (A4_HEIGHT - height ft) w (height ft).

(** The two calls made by [addBlank]. *)
Definition blankOps (x y w h : Q) : Page :=
  [Op_setFillColor 255 255 255; Op_rect x y (Math_ceil w) (Math_ceil h) "F"].

Definition stampOps (b : bool) (im : option Image) (op : Image -> DrawOp)
    : Page :=
  if b then match im with Some i => [op i] | None => [] end else [].

Definition stampCalls (b : bool) (cache : option Image) (v : JsValue)
    : list Node :=
  if b then pending cache v else [].

(** The rectangle above the band and the rectangle below a band of height
    [e], as [this.rect] receives them. *)
Definition topBlank (baseY : Q) : DrawOp :=
  Op_rect 0 0 (Math_ceil A4_WIDTH) (Math_ceil baseY) "F".

Definition bottomBlank (baseY e : Q) : DrawOp :=
  Op_rect 0 (baseY + e) (Math_ceil A4_WIDTH)
    (Math_ceil (A4_HEIGHT - (baseY + e))) "F".

Section Pages.
Variable html2canvas : Node -> option Canvas.
Variables (o : Options.t) (element : Node) (img : Image).

Let p : Params.t := paramsOf html2canvas o element img.

(** The image stamped as header, and as footer, from state [s] on. *)
Definition hdOf (s : State) : option Image :=
  bandImage html2canvas (__header s) (Options.header o)
    (Options.contentWidth o).

Definition ftOf (s : State) : option Image :=
  bandImage html2canvas (__footer s) (Options.footer o)
    (Options.contentWidth o).

(** The placement of the root image at height [y]. *)
Definition contentOp (y : Q) : DrawOp :=
  Op_addImage (data img) "JPEG" (Params.baseX p) y (width img) (height img).

(** The drawing calls of one page: the root image at [y], the blanks
    around a band of height [e], the header and the footer. *)
Definition pageBody (hd ft : option Image) (isFirst isLast : bool)
    (ye : Q * Q) : Page :=
  [contentOp (fst ye)]
  ++ (if negb isFirst then blankOps 0 0 A4_WIDTH (Params.baseY p) else [])
  ++ (if negb isLast
      then blankOps 0 (Params.baseY p + snd ye) A4_WIDTH
             (A4_HEIGHT - (Params.baseY p + snd ye))
      else [])
  ++ stampOps (isFirst || negb (Options.headerOnlyFirst o)) hd
       (headerOp (Params.baseX p) (Options.contentWidth o))
  ++ stampOps (isLast || negb (Options.footerOnlyLast o)) ft
       (footerOp (Params.baseX p) (Options.contentWidth o)).

(** The body shared by the two loops, for page [i] of [len], the image at
    [y] and a band of height [e]. *)
Definition pageM (len i : nat) (ye : Q * Q) : M unit :=
  Params.addImage p (Params.baseX p) (fst ye) ;;
  let isFirst := (i =? 0)%nat in
  let isLast := (i =? len - 1)%nat in
  when (negb isFirst) (addBlank 0 0 A4_WIDTH (Params.baseY p)) ;;
  when (negb isLast)
    (addBlank 0 (Params.baseY p + snd ye) A4_WIDTH
       (A4_HEIGHT - (Params.baseY p + snd ye))) ;;
  Params.addHeader p isFirst ;;
  Params.addFooter p isLast ;;
  when (negb isLast) addPage.

(** Pages [i], [i+1], ... of [len], one per descriptor. *)
Fixpoint pagesLoop (len i : nat) (yes : list (Q * Q)) : M unit :=
  match yes with
  | [] => ret tt
  | ye :: rest => pageM len i ye ;; pagesLoop len (S i) rest
  end.

(** The bodies of pages [i], [i+1], ... *)
Fixpoint pageBodies (hd ft : option Image) (len i : nat)
    (yes : list (Q * Q)) : list Page :=
  match yes with
  | [] => []
  | ye :: rest =>
      pageBody hd ft (i =? 0)%nat (i =? len - 1)%nat ye
      :: pageBodies hd ft len (S i) rest
  end.

(** Where the adaptive loop puts the image and how high the band is, for
    what is left of [elements] at [accumulationHeight]. *)
Fixpoint adaptiveSlices (acc : Q) (elements : list Q) : list (Q * Q) :=
  match elements with
  | [] => []
  | e :: rest => (Params.baseY p - acc, e) :: adaptiveSlices (acc + e) rest
  end.

(** The same for page [i] of the fixed loop. *)
Definition fixedSlice (i : nat) : Q * Q :=
  (Params.baseY p - inject_Z (Z.of_nat i) * Params.contentHeight p,
   Params.contentHeight p).
End Pages.

(** The document after [bodies] are drawn from a page holding [cur]. *)
Definition appendPages (cur : Page) (bodies : list Page) : list Page :=
  match bodies with
  | [] => [cur]
  | b :: bs => (cur ++ b) :: bs
  end.

(** [Math.ceil(height / contentHeight)] as a length. *)
Definition pageNum (height contentHeight : Q) : nat :=
  Z.to_nat (Qceiling (height / contentHeight)).

(** A document as [new jsPDF] leaves it: one page, nothing drawn. *)
Definition freshDocument (s : State) : Prop :=
  finished s = [] /\ current s = [].

(** [accumulationHeight] when the adaptive loop reaches entry [i]. *)
Definition accumulated (elements : list Q) (i : nat) : Q :=
  fold_left Qplus (firstn i elements) 0.

(** ** Rectangles on the page *)

Record Box : Type := mkBox { x_min : Q; y_min : Q; x_max : Q; y_max : Q }.

(** The region filled by [rect(x, y, w, h)]; a negative size extends the
    other way. *)
Definition rectBox (x y w h : Q) : Box :=
  mkBox (Qmin x (x + w)) (Qmin y (y + h)) (Qmax x (x + w)) (Qmax y (y + h)).

(** Two boxes share a region of positive area. *)
Definition overlaps (a b : Box) : Prop :=
  Qmax (x_min a) (x_min b) < Qmin (x_max a) (x_max b)
  /\ Qmax (y_min a) (y_min b) < Qmin (y_max a) (y_max b).

(** How far two boxes run into each other vertically. *)
Definition intrusion (a b : Box) : Q :=
  Qmax 0 (Qmin (y_max a) (y_max b) - Qmax (y_min a) (y_min b)).

(** The content band of a page: [contentWidth] wide from [baseX], [e] high
    from [baseY]. *)
Definition contentBand (baseX baseY contentWidth e : Q) : Box :=
  rectBox baseX baseY contentWidth e.

(** No rectangle filled on page [i] overlaps the band of page [i]. *)
Definition blanksClearOfBands (doc : list Page) (bands : list Box) : Prop :=
  forall i pg band x y w h style,
    nth_error doc i = Some pg ->
    nth_error bands i = Some band ->
    In (Op_rect x y w h style) pg ->
    ~ overlaps (rectBox x y w h) band.

(** ** A small document used to run the statements *)

Module Example.
Definition item (h : Q) : Node := mkNode 1 {[ "item" := "1" ]} 1100 h [].

(** A root 1100 wide holding a text node, an item, a group with one item,
    an untagged element (whose item is not visited) and a last item. *)
Definition root : Node :=
  mkNode 1 ∅ 1100 2000
    [ mkNode 3 ∅ 0 0 [];
      item 600;
      mkNode 1 {[ "group" := "1" ]} 1100 1200 [item 1200];
      mkNode 1 ∅ 1100 50 [item 50];
      item 200 ].

Definition banner : Node := mkNode 1 {[ "name" := "header" ]} 1100 80 [].
Definition footnote : Node := mkNode 1 {[ "name" := "footer" ]} 1100 40 [].

(** A rasterizer that keeps the size of the element and names the bitmap
    after the element. *)
Definition html2canvas (n : Node) : option Canvas :=
  Some (mkCanvas (offsetWidth n) (offsetHeight n)
          (match dataset n !! "name" with Some nm => nm | None => "root" end)).

(** Header on the first page only, footer on every page, [y = 20]. *)
Definition options : Options.t :=
  Options.mk (JsNode root) 550 800 "save" "document.pdf" None (Some 20)
    (JsNode banner) (JsNode footnote) true false "adaptive" "item" "group".

(** The root rendered 550 wide. *)
Definition image : Image := mkImage 550 1000 "root".

Definition bannerImage : Image := mkImage 550 (550 / 1100 * 80) "header".

(** A state right after [new jsPDF]. *)
Definition start : State := mkState [] [] [] None None [].
End Example.

(** ** Vocabulary of the further properties *)

(** What [res.push(pos)] returns at the end when [updatePos] has still to
    see the heights [hs] and the page holds [pos]: the entries yet to come. *)
Fixpoint entriesFrom (contentHeight pos : Q) (hs : list Q) : list Q :=
  match hs with
  | [] => [pos]
  | h :: hs' =>
      if Qle_bool (pos + h) contentHeight
      then entriesFrom contentHeight (pos + h) hs'
      else pos :: entriesFrom contentHeight h hs'
  end.

(** Every group of [groups] starts with an item that did not fit after what
    came before it: [prev] for the first group, the total of the preceding
    group for the others. *)
Fixpoint forced (contentHeight prev : Q) (groups : list (list Q)) : Prop :=
  match groups with
  | [] => True
  | grp :: groups' =>
      match grp with
      | [] => False
      | h :: _ => contentHeight < prev + h
      end
      /\ forced contentHeight (Qsum grp) groups'
  end.

(** The kinds of drawing calls, and the number of rectangles of a page. *)
Definition isRect (op : DrawOp) : bool :=
  match op with Op_rect _ _ _ _ _ => true | _ => false end.

Definition isImageOp (op : DrawOp) : bool :=
  match op with Op_addImage _ _ _ _ _ _ => true | _ => false end.

Definition isBlankOp (op : DrawOp) : bool := negb (isImageOp op).

Definition countRects (pg : Page) : nat := length (List.filter isRect pg).

(** ** More sample data *)

Module Sample.
(** What the sample rasterizer gives for the footer of the example. *)
Definition footerImage : Image := mkImage 550 (550 / 1100 * 40) "footer".

(** The example with an image that fits one page of the fixed loop. *)
Definition shortImage : Image := mkImage 550 640 "root".

(** The example with nothing rendered. *)
Definition emptyImage : Image := mkImage 550 0 "root".

(** A root 550 wide whose children are three items 300, 600 and 100
    high. *)
Definition flatRoot : Node :=
  mkNode 1 ∅ 550 1000
    [ mkNode 1 {[ "item" := "1" ]} 550 300 [];
      mkNode 1 {[ "item" := "1" ]} 550 600 [];
      mkNode 1 {[ "item" := "1" ]} 550 100 [] ].

(** A rasterizer that rejects the banner. *)
Definition noBanner (n : Node) : option Canvas :=
  match dataset n !! "name" with
  | Some "header" => None
  | _ => Example.html2canvas n
  end.

(** A rasterizer that rejects the footnote. *)
Definition noFootnote (n : Node) : option Canvas :=
  match dataset n !! "name" with
  | Some "footer" => None
  | _ => Example.html2canvas n
  end.

(** A rasterizer that rejects everything. *)
Definition rejectAll (n : Node) : option Canvas := None.
End Sample.

(** The artifact [output2] builds from a document. *)
Definition artifactOf (outputType filename : string) (doc : list Page)
    : Artifact :=
  if String.eqb outputType "file" then FileOf filename doc
  else if String.eqb outputType "save" then Saved filename
  else Output outputType doc.

(** A computation that writes no artifact, whether it returns or throws. *)
Definition keepsExports {A : Type} (m : M A) : Prop :=
  forall s, exported (snd (m s)) = exported s.

(** Where [outputPdf] has the root image placed and how high the band is,
    page by page: from [splitElement] in adaptive mode, by equal slices
    otherwise. *)
Definition slicesOf (html2canvas : Node -> option Canvas) (o : Options.t)
    (element : Node) (img : Image) : list (Q * Q) :=
  if String.eqb (Options.mode o) "adaptive"
  then adaptiveSlices html2canvas o element img 0
         (Scanner.splitElement element (Options.contentWidth o)
            (Options.contentHeight o) (Options.itemName o)
            (Options.groupName o))
  else map (fixedSlice html2canvas o element img)
         (seq 0 (pageNum (height img) (Options.contentHeight o))).

(** The state in which the page loop of [outputPdf] starts: a new document,
    the root rasterized. *)
Definition loopStart (el : Node) (s : State) : State :=
  mkState (html2canvas_calls s ++ [el]) [] [] None None (exported s).

(** The image [toCanvas] makes of a canvas at width [w]. *)
Definition imageOf (c : Canvas) (w : Q) : Image :=
  mkImage w (w / canvas_width c * canvas_height c) (toDataURL c).

(** ** The scanner over the numbers of the code *)

(** [splitElement] adds, multiplies, divides and compares numbers.  A [Num.t]
    holds these operations, so that the scanner can be read over the exact
    rationals and over the IEEE 754 binary64 numbers JavaScript computes
    with.  [ofQ] reads a measurement of a [Node] as a number. *)
Module Num.
Record t : Type := mk {
  num : Type;
  zero : num;
  add : num -> num -> num;
  mul : num -> num -> num;
  div : num -> num -> num;
  leb : num -> num -> bool;
  ofQ : Q -> num
}.

(** Exact rationals. *)
Definition exact : t := mk Q 0 Qplus Qmult Qdiv Qle_bool (fun q => q).

(** An integer as a double, exact below [2^53] in absolute value. *)
Definition ofZ (z : Z) : PrimFloat.float :=
  match z with
  | Z0 => PrimFloat.zero
  | Zpos _ => PrimFloat.of_uint63 (Uint63.of_Z z)
  | Zneg p => PrimFloat.opp (PrimFloat.of_uint63 (Uint63.of_Z (Zpos p)))
  end.

(** The double nearest to a rational whose numerator and denominator are
    below [2^53]. *)
Definition nearest (q : Q) : PrimFloat.float :=
  PrimFloat.div (ofZ (Qnum q)) (ofZ (Zpos (Qden q))).

(** JavaScript numbers: [+], [*] and [/] round to nearest, ties to even, and
    [<=] is false when a side is NaN. *)
Definition binary64 : t :=
  mk PrimFloat.float PrimFloat.zero PrimFloat.add PrimFloat.mul PrimFloat.div
    PrimFloat.leb nearest.

(** The running total of [run] on top of [start], added from left to
    right. *)
Definition total (N : t) (start : num N) (run : list (num N)) : num N :=
  fold_left (add N) run start.

(** The sum of a sequence, added from left to right from 0. *)
Definition sum (N : t) (l : list (num N)) : num N := total N (zero N) l.

(** The rational a finite double stands for. *)
Definition valueOf (x : PrimFloat.float) : option Q :=
  match FloatOps.Prim2SF x with
  | SpecFloat.S754_zero _ => Some 0
  | SpecFloat.S754_finite s m e =>
      Some ((if s then - (1) else 1) * inject_Z (Zpos m) * Qpower 2 e)
  | _ => None
  end.

(** The sum of a sequence of finite doubles, without rounding. *)
Fixpoint exactSum (l : list PrimFloat.float) : option Q :=
  match l with
  | [] => Some 0
  | x :: l' =>
      match valueOf x, exactSum l' with
      | Some q, Some r => Some (q + r)
      | _, _ => None
      end
  end.
End Num.

(** [splitElement] over the numbers [N]: the functions of [Scanner] with the
    arithmetic of [N]. *)
Module ScannerOver.
Section Scan.
Variable N : Num.t.

Record ScanState : Type := mkScan { res : list (Num.num N); pos : Num.num N }.

Variables (contentWidth contentHeight : Num.num N).
Variables (itemName groupName : string).
(** [const elementWidth = element.offsetWidth] *)
Variable elementWidth : Num.num N.

Definition updatePos (height : Num.num N) (st : ScanState) : ScanState :=
  if Num.leb N (Num.add N (pos st) height) contentHeight
  then mkScan (res st) (Num.add N (pos st) height)
  else mkScan (res st ++ [pos st]) height.

(** [contentWidth / elementWidth * offsetHeight] *)
Definition scaledHeight (one : Node) : Num.num N :=
  Num.mul N (Num.div N contentWidth elementWidth)
    (Num.ofQ N (offsetHeight one)).

Fixpoint traversingNode (one : Node) (st : ScanState) : ScanState :=
  if negb (nodeType one =? 1)%Z then st
  else match dataset one !! itemName with
       | Some _ => updatePos (scaledHeight one) st
       | None =>
           match dataset one !! groupName with
           | Some _ =>
               fold_left (fun s c => traversingNode c s) (childNodes one) st
           | None => st
           end
       end.

Definition traversingNodes (nodes : list Node) (st : ScanState) : ScanState :=
  fold_left (fun s c => traversingNode c s) nodes st.

(** The arguments of the successive calls of [updatePos]. *)
Fixpoint itemHeightsOf (one : Node) : list (Num.num N) :=
  if negb (nodeType one =? 1)%Z then []
  else match dataset one !! itemName with
       | Some _ => [scaledHeight one]
       | None =>
           match dataset one !! groupName with
           | Some _ => flat_map itemHeightsOf (childNodes one)
           | None => []
           end
       end.

Definition itemHeights (nodes : list Node) : list (Num.num N) :=
  flat_map itemHeightsOf nodes.

Definition updateAll (hs : list (Num.num N)) (st : ScanState) : ScanState :=
  fold_left (fun s h => updatePos h s) hs st.

Definition finish (st : ScanState) : list (Num.num N) := res st ++ [pos st].

(** A run of heights that [updatePos] puts on one page after a break: the
    height that did not fit the page before, and those added to it. *)
Definition runHeights (r : Num.num N * list (Num.num N))
    : list (Num.num N) :=
  fst r :: snd r.

(** The entry of such a run: [pos = height], then [pos += height] for the
    following ones. *)
Definition runTotal (r : Num.num N * list (Num.num N)) : Num.num N :=
  Num.total N (fst r) (snd r).
End Scan.

Arguments res {N} _.
Arguments pos {N} _.

Definition splitElement (N : Num.t) (element : Node)
    (contentWidth contentHeight : Num.num N) (itemName groupName : string)
    : list (Num.num N) :=
  finish N
    (traversingNodes N contentWidth contentHeight itemName groupName
       (Num.ofQ N (offsetWidth element)) (childNodes element)
       (mkScan N [] (Num.zero N))).

Definition scaledItems (N : Num.t) (element : Node)
    (contentWidth : Num.num N) (itemName groupName : string)
    : list (Num.num N) :=
  itemHeights N contentWidth itemName groupName
    (Num.ofQ N (offsetWidth element)) (childNodes element).

(** A state of the scanner over the exact rationals, as a state of
    [Scanner]. *)
Definition toScan (st : ScanState Num.exact) : Scanner.ScanState :=
  Scanner.mkScan (res st) (pos st).
End ScannerOver.

(** A root 660 wide with three items, 155, 806 and 1 high. *)
Module Rounding.
Definition item (h : Q) : Node := mkNode 1 {[ "item" := "1" ]} 660 h [].

Definition root : Node := mkNode 1 ∅ 660 962 [item 155; item 806; item 1].
End Rounding.

(** * Properties of the layout scanner *)

Module ScannerFacts.
Import Scanner.

Section Facts.
Variables (contentWidth contentHeight : Q) (itemName groupName : string).
Variable elementWidth : Q.

Notation updatePos := (updatePos contentHeight).
Notation updateAll := (updateAll contentHeight).
Notation traversingNode :=
  (traversingNode contentWidth contentHeight itemName groupName elementWidth).
Notation traversingNodes :=
  (traversingNodes contentWidth contentHeight itemName groupName
     elementWidth).
Notation itemHeightsOf :=
  (itemHeightsOf contentWidth itemName groupName elementWidth).
Notation itemHeights :=
  (itemHeights contentWidth itemName groupName elementWidth).
Notation inBounds := (inBounds contentHeight).

Lemma updateAll_app (hs1 hs2 : list Q) (st : ScanState) :
  updateAll (hs1 ++ hs2) st = updateAll hs2 (updateAll hs1 st).
Proof. apply fold_left_app. Qed.

(** Visiting the children one after the other is the run of [updatePos]
    over their items. *)
Lemma children_updateAll (cs : list Node) :
  Forall (fun c => forall st,
            traversingNode c st = updateAll (itemHeightsOf c) st) cs ->
  forall st,
    fold_left (fun s c => traversingNode c s) cs st
    = updateAll (flat_map itemHeightsOf cs) st.
Proof.
  induction 1 as [|c cs Hc _ IH]; intros st.
  - reflexivity.
  - cbn [fold_left flat_map]. rewrite updateAll_app, Hc. apply IH.
Qed.

Lemma traversingNode_updateAll (one : Node) :
  forall st, traversingNode one st = updateAll (itemHeightsOf one) st.
Proof.
  induction one as [nt ds ow oh cs IH] using Node_nested_ind.
  intros st. cbn.
  destruct (nt =? 1)%Z; cbn; [|reflexivity].
  destruct (ds !! itemName); [reflexivity|].
  destruct (ds !! groupName); [|reflexivity].
  now apply children_updateAll.
Qed.

Lemma traversingNodes_updateAll (nodes : list Node) (st : ScanState) :
  traversingNodes nodes st = updateAll (itemHeights nodes) st.
Proof.
  apply children_updateAll, Forall_forall.
  intros c _. apply traversingNode_updateAll.
Qed.

Lemma updatePos_bounds (hs : list Q) (h : Q) (st : ScanState) :
  In h hs ->
  Forall (inBounds hs) (finish st) ->
  Forall (inBounds hs) (finish (updatePos h st)).
Proof.
  intros Hin Hst. unfold updatePos, finish in *.
  apply Forall_app in Hst as [Hres Hpos].
  destruct (Qle_bool (pos st + h) contentHeight) eqn:E; cbn [res pos].
  - apply Forall_app; split; [exact Hres|].
    constructor; [|constructor]. left. now apply Qle_bool_iff.
  - apply Forall_app; split.
    + apply Forall_app; split; assumption.
    + constructor; [|constructor].
      destruct (Qlt_le_dec contentHeight h) as [Hlt|Hle].
      * right. split; assumption.
      * left. assumption.
Qed.

Lemma updateAll_bounds (all hs : list Q) :
  (forall h, In h hs -> In h all) ->
  forall st,
    Forall (inBounds all) (finish st) ->
    Forall (inBounds all) (finish (updateAll hs st)).
Proof.
  induction hs as [|h hs IH]; intros Hsub st Hst; cbn.
  - exact Hst.
  - apply IH.
    + intros k Hk. apply Hsub. now right.
    + apply updatePos_bounds; [apply Hsub; now left | exact Hst].
Qed.

Lemma updatePos_fits (h : Q) (st : ScanState) :
  pos st + h <= contentHeight ->
  updatePos h st = mkScan (res st) (pos st + h).
Proof.
  intros Hle. unfold updatePos.
  apply Qle_bool_iff in Hle. now rewrite Hle.
Qed.

Lemma updatePos_breaks (h : Q) (st : ScanState) :
  contentHeight < pos st + h ->
  updatePos h st = mkScan (res st ++ [pos st]) h.
Proof.
  intros Hlt. unfold updatePos.
  destruct (Qle_bool (pos st + h) contentHeight) eqn:E; [|reflexivity].
  apply Qle_bool_iff in E. lra.
Qed.

(** An exact fit takes the first branch of [updatePos]. *)
Lemma updatePos_exact_fit (h : Q) (st : ScanState) :
  pos st + h == contentHeight ->
  updatePos h st = mkScan (res st) (pos st + h).
Proof. intros Heq. apply updatePos_fits. lra. Qed.
End Facts.


(** C3: three items of scaled heights 300, 600 and 100, in document order,
    with [contentHeight = 800], give the break sequence [300, 700]. *)
Theorem splitElement_300_600_100 (element : Node)
    (contentWidth contentHeight : Q) (itemName groupName : string) :
  Qlist_eq (scaledItems element contentWidth itemName groupName)
    [300; 600; 100] ->
  contentHeight == 800 ->
  Qlist_eq (splitElement element contentWidth contentHeight itemName groupName)
    [300; 700].
Proof.
  unfold Qlist_eq, splitElement, scaledItems.
  intros Hitems HcH. rewrite traversingNodes_updateAll.
  inversion Hitems as [|a ? l1 ? Ha H1]; subst.
  inversion H1 as [|b ? l2 ? Hb H2]; subst.
  inversion H2 as [|c ? l3 ? Hc H3]; subst.
  inversion H3; subst.
  unfold Scanner.updateAll, finish. cbn [fold_left].
  rewrite (updatePos_fits contentHeight a) by (cbn [pos]; lra).
  rewrite (updatePos_breaks contentHeight b) by (cbn [pos]; lra).
  rewrite (updatePos_fits contentHeight c) by (cbn [pos]; lra).
  cbn [res pos app].
  apply List.Forall2_cons; [lra|].
  apply List.Forall2_cons; [lra|].
  apply List.Forall2_nil.
Qed.

(** C3 on the example document, rendered at [contentWidth = 550]. *)
Lemma splitElement_300_600_100_witness :
  Qlist_eq (splitElement Example.root 550 800 "item" "group") [300; 700].
Proof.
  apply (splitElement_300_600_100 Example.root 550 800 "item" "group").
  - vm_compute. repeat constructor.
  - reflexivity.
Defined.


(** The scanner on small inputs: the exact fit above, an item taller than
    the page, and a root without items. *)
Example splitElement_exact_fit :
  map Qred (splitElement Example.root 550 900 "item" "group") = [900; 100].
Proof. reflexivity. Qed.

Example splitElement_oversized_item :
  map Qred (splitElement Example.root 550 500 "item" "group")
  = [300; 600; 100].
Proof. reflexivity. Qed.

Example splitElement_oversized_first :
  map Qred (splitElement Example.root 550 200 "item" "group")
  = [0; 300; 600; 100].
Proof. reflexivity. Qed.

Example splitElement_no_item :
  splitElement Example.banner 550 800 "item" "group" = [0].
Proof. reflexivity. Qed.

End ScannerFacts.

(** * The layout scanner in the arithmetic of the code *)

Module ScannerOverFacts.
Import ScannerOver.

Section Facts.
Variable N : Num.t.
Variables (contentWidth contentHeight : Num.num N).
Variables (itemName groupName : string).
Variable elementWidth : Num.num N.

Lemma over_updateAll_app (hs1 hs2 : list (Num.num N)) (st : ScanState N) :
  updateAll N contentHeight (hs1 ++ hs2) st
  = updateAll N contentHeight hs2 (updateAll N contentHeight hs1 st).
Proof. apply fold_left_app. Qed.

Lemma over_children_updateAll (cs : list Node) :
  Forall (fun c => forall st,
            traversingNode N contentWidth contentHeight itemName groupName
              elementWidth c st
            = updateAll N contentHeight
                (itemHeightsOf N contentWidth itemName groupName elementWidth
                   c) st) cs ->
  forall st,
    fold_left
      (fun s c =>
         traversingNode N contentWidth contentHeight itemName groupName
           elementWidth c s) cs st
    = updateAll N contentHeight
        (flat_map
           (itemHeightsOf N contentWidth itemName groupName elementWidth) cs)
        st.
Proof.
  induction 1 as [|c cs Hc _ IH]; intros st.
  - reflexivity.
  - cbn [fold_left flat_map]. rewrite over_updateAll_app, Hc. apply IH.
Qed.

Lemma over_traversingNode_updateAll (one : Node) :
  forall st,
    traversingNode N contentWidth contentHeight itemName groupName
      elementWidth one st
    = updateAll N contentHeight
        (itemHeightsOf N contentWidth itemName groupName elementWidth one) st.
Proof.
  induction one as [nt ds ow oh cs IH] using Node_nested_ind.
  intros st. cbn.
  destruct (nt =? 1)%Z; cbn; [|reflexivity].
  destruct (ds !! itemName); [reflexivity|].
  destruct (ds !! groupName); [|reflexivity].
  now apply over_children_updateAll.
Qed.

Lemma over_traversingNodes_updateAll (nodes : list Node) (st : ScanState N) :
  traversingNodes N contentWidth contentHeight itemName groupName
    elementWidth nodes st
  = updateAll N contentHeight
      (itemHeights N contentWidth itemName groupName elementWidth nodes) st.
Proof.
  apply over_children_updateAll, List.Forall_forall.
  intros c _. apply over_traversingNode_updateAll.
Qed.

(** The heights fall into runs: those added to what the page holds, then one
    run for every break, and the entries are the running totals of the
    runs. *)
Lemma updateAll_runs (hs : list (Num.num N)) :
  forall st,
    exists first rest,
      hs = first ++ flat_map (runHeights N) rest
      /\ finish N (updateAll N contentHeight hs st)
         = res st ++ Num.total N (pos st) first :: map (runTotal N) rest.
Proof.
  induction hs as [|h hs IH]; intros st.
  - exists [], []. split; reflexivity.
  - change (updateAll N contentHeight (h :: hs) st)
      with (updateAll N contentHeight hs (updatePos N contentHeight h st)).
    destruct (IH (updatePos N contentHeight h st))
      as (first & rest & Hhs & Hfin).
    unfold updatePos in *.
    destruct (Num.leb N (Num.add N (pos st) h) contentHeight);
      cbn [res pos] in Hfin.
    + exists (h :: first), rest. split.
      * cbn [app]. now rewrite Hhs.
      * exact Hfin.
    + exists [], ((h, first) :: rest). split.
      * cbn [app flat_map runHeights fst snd]. now rewrite Hhs.
      * rewrite Hfin, <- app_assoc. reflexivity.
Qed.

Section Sums.
Hypothesis add_assoc :
  forall a b c : Num.num N,
    Num.add N (Num.add N a b) c = Num.add N a (Num.add N b c).

Lemma total_add (l : list (Num.num N)) :
  forall a b,
    Num.total N (Num.add N a b) l = Num.add N a (Num.total N b l).
Proof.
  induction l as [|x l IH]; intros a b; cbn.
  - reflexivity.
  - rewrite add_assoc. apply IH.
Qed.

Lemma total_runs (rest : list (Num.num N * list (Num.num N))) :
  forall acc,
    Num.total N acc (map (runTotal N) rest)
    = Num.total N acc (flat_map (runHeights N) rest).
Proof.
  induction rest as [|[h r] rest IH]; intros acc.
  - reflexivity.
  - cbn [map flat_map runHeights runTotal fst snd].
    unfold Num.total in *. cbn [fold_left app].
    rewrite fold_left_app, <- IH.
    f_equal. symmetry. apply total_add.
Qed.
End Sums.
End Facts.

(** Addition of rationals is associative and has 0 as left unit, fraction by
    fraction. *)
Lemma Qplus_assoc_eq (a b c : Q) : Qplus (Qplus a b) c = Qplus a (Qplus b c).
Proof.
  destruct a as [an ad], b as [bn bd], c as [cn cd].
  unfold Qplus. cbn [Qnum Qden].
  f_equal; [|now rewrite Pos.mul_assoc].
  rewrite !Pos2Z.inj_mul. ring.
Qed.

Lemma Qplus_0_l_eq (a : Q) : Qplus 0 a = a.
Proof.
  destruct a as [an ad]. unfold Qplus. cbn [Qnum Qden].
  now rewrite Z.mul_1_r.
Qed.

(** Over the exact rationals [ScannerOver] is [Scanner]. *)
Lemma updateAll_exact (contentHeight : Q) (hs : list Q) :
  forall st,
    toScan (updateAll Num.exact contentHeight hs st)
    = Scanner.updateAll contentHeight hs (toScan st).
Proof.
  induction hs as [|h hs IH]; intros st.
  - reflexivity.
  - change (updateAll Num.exact contentHeight (h :: hs) st)
      with (updateAll Num.exact contentHeight hs
              (updatePos Num.exact contentHeight h st)).
    rewrite IH. unfold Scanner.updateAll. cbn [fold_left]. f_equal.
    unfold updatePos, Scanner.updatePos, toScan. cbn.
    now destruct (Qle_bool (pos st + h) contentHeight).
Qed.

Lemma scaledItems_exact (element : Node) (contentWidth : Q)
    (itemName groupName : string) :
  scaledItems Num.exact element contentWidth itemName groupName
  = Scanner.scaledItems element contentWidth itemName groupName.
Proof. reflexivity. Qed.

Lemma splitElement_exact (element : Node) (contentWidth contentHeight : Q)
    (itemName groupName : string) :
  splitElement Num.exact element contentWidth contentHeight itemName
    groupName
  = Scanner.splitElement element contentWidth contentHeight itemName
      groupName.
Proof.
  unfold splitElement, Scanner.splitElement.
  rewrite over_traversingNodes_updateAll, ScannerFacts.traversingNodes_updateAll.
  change (finish Num.exact ?st) with (Scanner.finish (toScan st)).
  now rewrite updateAll_exact.
Qed.

(** The claim of C2 in the arithmetic of the code.  The root is 660 wide and
    holds items 155, 806 and 1 high; with [contentWidth = 550] and
    [contentHeight = 800] the first item is alone on its page and the other
    two share the next.  Added from left to right the entries and the scaled
    heights give different doubles, because the two last heights are added
    to each other before the first is added; and the entries, as the exact
    numbers they are, do not add up to what the scaled heights add up to,
    the second entry being a rounded sum. *)
Lemma splitElement_sum_rounds :
  let entries :=
    splitElement Num.binary64 Rounding.root (Num.ofZ 550) (Num.ofZ 800)
      "item" "group" in
  let heights :=
    scaledItems Num.binary64 Rounding.root (Num.ofZ 550) "item" "group" in
  length entries = 2%nat
  /\ length heights = 3%nat
  /\ Num.sum Num.binary64 entries <> Num.sum Num.binary64 heights
  /\ exists a b,
       Num.exactSum entries = Some a /\ Num.exactSum heights = Some b
       /\ ~ a == b.
Proof.
  intros entries heights.
  split; [reflexivity|]. split; [reflexivity|]. split.
  - intros H.
    apply (f_equal (fun x =>
                      PrimFloat.eqb x (Num.sum Num.binary64 heights))) in H.
    vm_compute in H. discriminate.
  - eexists. eexists.
    split; [vm_compute; reflexivity|].
    split; [vm_compute; reflexivity|].
    intros H. apply Qeq_bool_iff in H. vm_compute in H. discriminate.
Qed.

(** C2, as the code has it.  For every tree, [contentWidth] and
    [contentHeight], in exact arithmetic and in the doubles of the code
    alike, the scaled heights [contentWidth / element.offsetWidth *
    offsetHeight] of the items met by the traversal fall, in order, into
    consecutive runs, one for every entry of the sequence returned by
    [splitElement]: the first entry is 0 with the heights of the first run
    added to it from left to right, every other entry is the first height of
    its run with the following ones added to it from left to right.  So the
    sum of the entries and the sum of the scaled heights add the same
    numbers and differ only in the order of the additions: they are equal
    wherever addition is associative and [0 + x = x], as it is for exact
    numbers. *)
Theorem splitElement_running_totals (N : Num.t) (element : Node)
    (contentWidth contentHeight : Num.num N) (itemName groupName : string) :
  let entries :=
    splitElement N element contentWidth contentHeight itemName groupName in
  let heights := scaledItems N element contentWidth itemName groupName in
  (exists first rest,
     heights = first ++ flat_map (runHeights N) rest
     /\ entries
        = Num.total N (Num.zero N) first :: map (runTotal N) rest)
  /\ ((forall a b c,
         Num.add N (Num.add N a b) c = Num.add N a (Num.add N b c)) ->
      (forall a, Num.add N (Num.zero N) a = a) ->
      Num.sum N entries = Num.sum N heights).
Proof.
  intros entries heights.
  assert (Hruns : exists first rest,
             heights = first ++ flat_map (runHeights N) rest
             /\ entries
                = Num.total N (Num.zero N) first :: map (runTotal N) rest).
  { unfold entries, heights, splitElement, scaledItems.
    rewrite over_traversingNodes_updateAll.
    destruct (updateAll_runs N contentHeight
                (itemHeights N contentWidth itemName groupName
                   (Num.ofQ N (offsetWidth element)) (childNodes element))
                (mkScan N [] (Num.zero N)))
      as (first & rest & Hhs & Hfin).
    exists first, rest. split; [exact Hhs | exact Hfin]. }
  split; [exact Hruns|].
  intros Hassoc Hzero.
  destruct Hruns as (first & rest & -> & ->).
  unfold Num.sum, Num.total at 1 3. cbn [fold_left].
  rewrite Hzero, fold_left_app.
  apply (total_runs N Hassoc).
Qed.

(** C2 on the example document over the exact rationals. *)
Lemma splitElement_running_totals_witness :
  Num.sum Num.exact (splitElement Num.exact Example.root 550 800 "item" "group")
  = Num.sum Num.exact (scaledItems Num.exact Example.root 550 "item" "group").
Proof.
  apply (splitElement_running_totals Num.exact Example.root 550 800
           "item" "group").
  - exact Qplus_assoc_eq.
  - exact Qplus_0_l_eq.
Defined.

(** The runs of the rounding example: the first item, then the other two. *)
Example splitElement_rounding_runs :
  let heights :=
    scaledItems Num.binary64 Rounding.root (Num.ofZ 550) "item" "group" in
  splitElement Num.binary64 Rounding.root (Num.ofZ 550) (Num.ofZ 800)
    "item" "group"
  = map (Num.sum Num.binary64) [firstn 1 heights; skipn 1 heights].
Proof. vm_compute. reflexivity. Qed.

End ScannerOverFacts.

(** * Properties of the page compositor *)

Module CompositorFacts.

Lemma bind_ok {A B} (m : M A) (f : A -> M B) (s s1 : State) (a : A) :
  m s = (Ok a, s1) -> bind m f s = f a s1.
Proof. intros H. unfold bind. now rewrite H. Qed.

Lemma bind_ext {A B} (m : M A) (f g : A -> M B) (s : State) :
  (forall a s1, f a s1 = g a s1) -> bind m f s = bind m g s.
Proof.
  intros H. unfold bind. destruct (m s) as [[a|e] s1]; [apply H | reflexivity].
Qed.

Lemma bind_assoc {A B C} (m : M A) (f : A -> M B) (g : B -> M C) (s : State) :
  bind (bind m f) g s = bind m (fun a => bind (f a) g) s.
Proof. unfold bind. destruct (m s) as [[a|e] s1]; reflexivity. Qed.

Section Stamps.
Variable html2canvas : Node -> option Canvas.

(** One call of [pdf.addHeader] behind its policy test. *)
Lemma stampHeader_run (b : bool) (x w : Q) (v : JsValue) (s : State) :
  rasterizes html2canvas v ->
  exists s1,
    when b (addHeader html2canvas x w v) s = (Ok tt, s1)
    /\ html2canvas_calls s1
       = html2canvas_calls s ++ stampCalls b (__header s) v
    /\ finished s1 = finished s
    /\ current s1
       = current s
         ++ stampOps b (bandImage html2canvas (__header s) v w) (headerOp x w)
    /\ bandImage html2canvas (__header s1) v w
       = bandImage html2canvas (__header s) v w
    /\ (b = true \/ pending (__header s) v = [] ->
        pending (__header s1) v = [])
    /\ stampCalls b (__header s) v ++ pending (__header s1) v
       = pending (__header s) v
    /\ __footer s1 = __footer s
    /\ exported s1 = exported s.
Proof.
  intros Hr. unfold rasterizes in Hr.
  unfold when, addHeader, stampCalls, stampOps, bandImage, pending.
  destruct b.
  2:{ exists s. rewrite !app_nil_r.
      repeat split; try reflexivity. now intros [H|H]. }
  destruct (as_HTMLElement v) as [el|] eqn:Hel.
  2:{ exists s. rewrite !app_nil_r. repeat split; reflexivity. }
  destruct (__header s) as [hd|] eqn:Hc.
  - eexists. unfold bind, get_header, ret, draw. rewrite Hc. cbn.
    rewrite Hc, app_nil_r. repeat split; reflexivity.
  - unfold rendered.
    destruct (html2canvas el) as [c|] eqn:Hh; [|congruence].
    eexists. unfold bind, get_header, toCanvas, call_html2canvas, ret, draw,
      set_header.
    rewrite Hc. cbn. rewrite Hh. cbn.
    repeat split; reflexivity.
Qed.

(** One call of [pdf.addFooter] behind its policy test. *)
Lemma stampFooter_run (b : bool) (x w : Q) (v : JsValue) (s : State) :
  rasterizes html2canvas v ->
  exists s1,
    when b (addFooter html2canvas x w v) s = (Ok tt, s1)
    /\ html2canvas_calls s1
       = html2canvas_calls s ++ stampCalls b (__footer s) v
    /\ finished s1 = finished s
    /\ current s1
       = current s
         ++ stampOps b (bandImage html2canvas (__footer s) v w) (footerOp x w)
    /\ bandImage html2canvas (__footer s1) v w
       = bandImage html2canvas (__footer s) v w
    /\ (b = true \/ pending (__footer s) v = [] ->
        pending (__footer s1) v = [])
    /\ stampCalls b (__footer s) v ++ pending (__footer s1) v
       = pending (__footer s) v
    /\ __header s1 = __header s
    /\ exported s1 = exported s.
Proof.
  intros Hr. unfold rasterizes in Hr.
  unfold when, addFooter, stampCalls, stampOps, bandImage, pending.
  destruct b.
  2:{ exists s. rewrite !app_nil_r.
      repeat split; try reflexivity. now intros [H|H]. }
  destruct (as_HTMLElement v) as [el|] eqn:Hel.
  2:{ exists s. rewrite !app_nil_r. repeat split; reflexivity. }
  destruct (__footer s) as [ft|] eqn:Hc.
  - eexists. unfold bind, get_footer, ret, draw. rewrite Hc. cbn.
    rewrite Hc, app_nil_r. repeat split; reflexivity.
  - unfold rendered.
    destruct (html2canvas el) as [c|] eqn:Hh; [|congruence].
    eexists. unfold bind, get_footer, toCanvas, call_html2canvas, ret, draw,
      set_footer.
    rewrite Hc. cbn. rewrite Hh. cbn.
    repeat split; reflexivity.
Qed.
End Stamps.

Lemma draw_run (op : DrawOp) (s : State) :
  exists s1,
    draw op s = (Ok tt, s1)
    /\ html2canvas_calls s1 = html2canvas_calls s
    /\ finished s1 = finished s
    /\ current s1 = current s ++ [op]
    /\ __header s1 = __header s
    /\ __footer s1 = __footer s
    /\ exported s1 = exported s.
Proof. eexists. unfold draw. repeat split; reflexivity. Qed.

Lemma blank_run (b : bool) (x y w h : Q) (s : State) :
  exists s1,
    when b (addBlank x y w h) s = (Ok tt, s1)
    /\ html2canvas_calls s1 = html2canvas_calls s
    /\ finished s1 = finished s
    /\ current s1 = current s ++ (if b then blankOps x y w h else [])
    /\ __header s1 = __header s
    /\ __footer s1 = __footer s
    /\ exported s1 = exported s.
Proof.
  destruct b.
  - eexists. unfold when, addBlank, bind, draw. cbn.
    rewrite <- app_assoc. repeat split; reflexivity.
  - exists s. rewrite app_nil_r. repeat split; reflexivity.
Qed.

Lemma addPage_run (b : bool) (s : State) :
  exists s1,
    when b addPage s = (Ok tt, s1)
    /\ html2canvas_calls s1 = html2canvas_calls s
    /\ finished s1 = (if b then finished s ++ [current s] else finished s)
    /\ current s1 = (if b then [] else current s)
    /\ __header s1 = __header s
    /\ __footer s1 = __footer s
    /\ exported s1 = exported s.
Proof.
  destruct b.
  - eexists. unfold when, addPage. repeat split; reflexivity.
  - exists s. repeat split; reflexivity.
Qed.

Section PageRuns.
Variable html2canvas : Node -> option Canvas.
Variables (o : Options.t) (element : Node) (img : Image).
Hypothesis header_ok : rasterizes html2canvas (Options.header o).
Hypothesis footer_ok : rasterizes html2canvas (Options.footer o).

(** One page: the calls it makes, the body it draws and the page break. *)
Lemma pageM_run (len i : nat) (ye : Q * Q) (s : State) :
  let isFirst := (i =? 0)%nat in
  let isLast := (i =? len - 1)%nat in
  let bH := isFirst || negb (Options.headerOnlyFirst o) in
  let bF := isLast || negb (Options.footerOnlyLast o) in
  let body := pageBody html2canvas o element img (hdOf html2canvas o s)
                (ftOf html2canvas o s) isFirst isLast ye in
  exists s1,
    pageM html2canvas o element img len i ye s = (Ok tt, s1)
    /\ html2canvas_calls s1
       = html2canvas_calls s
         ++ stampCalls bH (__header s) (Options.header o)
         ++ stampCalls bF (__footer s) (Options.footer o)
    /\ finished s1
       = (if isLast then finished s else finished s ++ [current s ++ body])
    /\ current s1 = (if isLast then current s ++ body else [])
    /\ hdOf html2canvas o s1 = hdOf html2canvas o s
    /\ ftOf html2canvas o s1 = ftOf html2canvas o s
    /\ (bH = true \/ pending (__header s) (Options.header o) = [] ->
        pending (__header s1) (Options.header o) = [])
    /\ (bF = true \/ pending (__footer s) (Options.footer o) = [] ->
        pending (__footer s1) (Options.footer o) = [])
    /\ stampCalls bH (__header s) (Options.header o)
       ++ pending (__header s1) (Options.header o)
       = pending (__header s) (Options.header o)
    /\ stampCalls bF (__footer s) (Options.footer o)
       ++ pending (__footer s1) (Options.footer o)
       = pending (__footer s) (Options.footer o)
    /\ exported s1 = exported s.
Proof.
  intros isFirst isLast bH bF body.
  unfold pageM. cbn [paramsOf Params.addImage Params.addHeader
    Params.addFooter Params.baseX Params.baseY].
  fold isFirst isLast.
  set (bx := Params.baseX (paramsOf html2canvas o element img)) in *.
  set (by_ := Params.baseY (paramsOf html2canvas o element img)) in *.
  destruct (draw_run (contentOp html2canvas o element img (fst ye)) s)
    as (s1 & R1 & C1 & F1 & P1 & H1 & T1 & X1).
  destruct (blank_run (negb isFirst) 0 0 A4_WIDTH by_ s1)
    as (s2 & R2 & C2 & F2 & P2 & H2 & T2 & X2).
  destruct (blank_run (negb isLast) 0 (by_ + snd ye) A4_WIDTH
              (A4_HEIGHT - (by_ + snd ye)) s2)
    as (s3 & R3 & C3 & F3 & P3 & H3 & T3 & X3).
  destruct (stampHeader_run html2canvas bH bx (Options.contentWidth o)
              (Options.header o) s3 header_ok)
    as (s4 & R4 & C4 & F4 & P4 & B4 & N4 & K4 & T4 & X4).
  destruct (stampFooter_run html2canvas bF bx (Options.contentWidth o)
              (Options.footer o) s4 footer_ok)
    as (s5 & R5 & C5 & F5 & P5 & B5 & N5 & K5 & H5 & X5).
  destruct (addPage_run (negb isLast) s5)
    as (s6 & R6 & C6 & F6 & P6 & H6 & T6 & X6).
  exists s6.
  assert (Hcur : current s5 = current s ++ body).
  { rewrite P5, P4, P3, P2, P1. unfold body, pageBody, hdOf, ftOf.
    rewrite T4, T3, T2, T1, H3, H2, H1.
    fold bx by_. cbn [fst snd]. fold bH bF.
    rewrite <- !app_assoc. reflexivity. }
  split.
  { erewrite bind_ok by exact R1.
    erewrite bind_ok by exact R2.
    erewrite bind_ok by exact R3.
    erewrite bind_ok by exact R4.
    erewrite bind_ok by exact R5.
    exact R6. }
  split.
  { rewrite C6, C5, C4, C3, C2, C1, T4, T3, T2, T1, H3, H2, H1.
    now rewrite <- app_assoc. }
  split.
  { rewrite F6, F5, F4, F3, F2, F1, Hcur. now destruct isLast. }
  split.
  { rewrite P6, Hcur. now destruct isLast. }
  split.
  { unfold hdOf. rewrite H6, H5, B4, H3, H2, H1. reflexivity. }
  split.
  { unfold ftOf. rewrite T6, B5, T4, T3, T2, T1. reflexivity. }
  split.
  { rewrite H6, H5. rewrite H3, H2, H1 in N4. exact N4. }
  split.
  { rewrite T6. rewrite T4, T3, T2, T1 in N5. exact N5. }
  split.
  { rewrite H6, H5. rewrite H3, H2, H1 in K4. exact K4. }
  split.
  { rewrite T6. rewrite T4, T3, T2, T1 in K5. exact K5. }
  now rewrite X6, X5, X4, X3, X2, X1.
Qed.
End PageRuns.

Section LoopRuns.
Variable html2canvas : Node -> option Canvas.
Variables (o : Options.t) (element : Node) (img : Image).
Hypothesis header_ok : rasterizes html2canvas (Options.header o).
Hypothesis footer_ok : rasterizes html2canvas (Options.footer o).

(** The run of the pages [i], [i+1], ..., the last of which is page
    [len - 1]: it succeeds, draws one body per page, and asks the
    rasterizer only for what the two cache fields still miss. *)
Lemma pagesLoop_run (len : nat) (yes : list (Q * Q)) :
  forall (i : nat) (s : State),
    len = (i + length yes)%nat ->
    exists s',
      pagesLoop html2canvas o element img len i yes s = (Ok tt, s')
      /\ pages s'
         = finished s
           ++ appendPages (current s)
                (pageBodies html2canvas o element img
                   (hdOf html2canvas o s) (ftOf html2canvas o s) len i yes)
      /\ hdOf html2canvas o s' = hdOf html2canvas o s
      /\ ftOf html2canvas o s' = ftOf html2canvas o s
      /\ exported s' = exported s
      /\ (yes <> [] ->
          i = 0%nat \/ pending (__header s) (Options.header o) = [] ->
          html2canvas_calls s'
          = html2canvas_calls s
            ++ pending (__header s) (Options.header o)
            ++ pending (__footer s) (Options.footer o)
          /\ pending (__header s') (Options.header o) = []
          /\ pending (__footer s') (Options.footer o) = []).
Proof.
  induction yes as [|ye rest IH]; intros i s Hlen.
  - exists s. cbn [pagesLoop pageBodies appendPages].
    repeat split; try reflexivity; congruence.
  - cbn [length] in Hlen.
    destruct (pageM_run html2canvas o element img header_ok footer_ok
                len i ye s)
      as (s1 & R1 & C1 & F1 & P1 & B1 & T1 & N1 & M1 & K1 & L1 & X1).
    cbv zeta in *.
    destruct rest as [|ye' rest'].
    + (* the last page *)
      assert (Hlast : (i =? len - 1)%nat = true)
        by (apply Nat.eqb_eq; cbn [length] in Hlen; lia).
      rewrite Hlast in *. cbn [orb] in *.
      exists s1. cbn [pagesLoop pageBodies appendPages].
      rewrite Hlast.
      split; [erewrite bind_ok by exact R1; reflexivity|].
      split; [unfold pages; now rewrite F1, P1|].
      split; [exact B1|]. split; [exact T1|]. split; [exact X1|].
      intros _ Hhead. split; [|split].
      * rewrite C1. unfold stampCalls.
        destruct Hhead as [-> | Hp]; [reflexivity|].
        rewrite Hp. now destruct (_ || _).
      * apply N1. destruct Hhead as [-> | Hp]; [now left | now right].
      * apply M1. now left.
    + (* a page followed by others *)
      assert (Hlast : (i =? len - 1)%nat = false)
        by (apply Nat.eqb_neq; cbn [length] in Hlen; lia).
      rewrite Hlast in *. cbn [orb] in *.
      destruct (IH (S i) s1 ltac:(cbn [length] in *; lia))
        as (s' & R' & G' & B' & T' & X' & Calls').
      exists s'.
      split.
      { cbn [pagesLoop]. erewrite bind_ok by exact R1. exact R'. }
      split.
      { rewrite G', F1, P1, B1, T1.
        cbn [pageBodies appendPages app]. rewrite Hlast.
        now rewrite <- app_assoc. }
      split; [congruence|]. split; [congruence|]. split; [congruence|].
      intros _ Hhead.
      assert (Hp1 : pending (__header s1) (Options.header o) = []).
      { apply N1. destruct Hhead as [-> | Hp]; [now left | now right]. }
      destruct (Calls' ltac:(discriminate) (or_intror Hp1))
        as (Cs & Ph & Pf).
      repeat split; try assumption.
      rewrite Cs, C1, Hp1. cbn [app].
      rewrite Hp1, app_nil_r in K1.
      rewrite <- !app_assoc. f_equal.
      rewrite K1. f_equal. exact L1.
Qed.

(** The loop of [outputWithAdaptive] runs the shared page body. *)
Lemma adaptiveLoop_pagesLoop (len : nat) (elements : list Q) :
  forall (acc : Q) (i : nat) (s : State),
    adaptiveLoop (paramsOf html2canvas o element img) len
      elements acc i s
    = pagesLoop html2canvas o element img len i
        (adaptiveSlices html2canvas o element img acc elements) s.
Proof.
  induction elements as [|e rest IH]; intros acc i s.
  - reflexivity.
  - cbn [adaptiveLoop adaptiveSlices pagesLoop]. unfold pageM.
    cbv zeta. cbn [fst snd].
    rewrite bind_assoc. apply bind_ext. intros _ s1.
    rewrite bind_assoc. apply bind_ext. intros _ s2.
    rewrite bind_assoc. apply bind_ext. intros _ s3.
    rewrite bind_assoc. apply bind_ext. intros _ s4.
    rewrite bind_assoc. apply bind_ext. intros _ s5.
    apply bind_ext. intros _ s6.
    rewrite Nat.add_1_r. apply IH.
Qed.

(** The loop of [outputWithFixedSize] runs the shared page body. *)
Lemma forEach_pagesLoop (len m : nat) :
  forall (i : nat) (s : State),
    forEach (seq i m)
      (fun i => pageM html2canvas o element img len i
                  (fixedSlice html2canvas o element img i)) s
    = pagesLoop html2canvas o element img len i
        (map (fixedSlice html2canvas o element img) (seq i m)) s.
Proof.
  induction m as [|m IH]; intros i s.
  - reflexivity.
  - cbn [seq map forEach pagesLoop]. apply bind_ext. intros _ s1. apply IH.
Qed.
End LoopRuns.

(** ** The two loops in closed form *)

Lemma fresh_pages (s : State) (b : Page) (bs : list Page) :
  freshDocument s ->
  finished s ++ appendPages (current s) (b :: bs) = b :: bs.
Proof. intros [-> ->]. reflexivity. Qed.

Lemma pages_finished_length (s : State) :
  length (pages s) = S (length (finished s)).
Proof. unfold pages. rewrite length_app. cbn. lia. Qed.

Section ClosedForms.
Variable html2canvas : Node -> option Canvas.
Variables (o : Options.t) (element : Node) (img : Image).
Hypothesis header_ok : rasterizes html2canvas (Options.header o).
Hypothesis footer_ok : rasterizes html2canvas (Options.footer o).

Lemma pageBodies_length (hd ft : option Image) (len : nat)
    (yes : list (Q * Q)) :
  forall i,
    length (pageBodies html2canvas o element img hd ft len i yes)
    = length yes.
Proof. induction yes as [|ye rest IH]; intros i; cbn; [|rewrite IH]; lia. Qed.

Lemma pageBodies_nth (hd ft : option Image) (len : nat)
    (yes : list (Q * Q)) :
  forall i j,
    nth_error (pageBodies html2canvas o element img hd ft len i yes) j
    = option_map
        (pageBody html2canvas o element img hd ft
           (i + j =? 0)%nat (i + j =? len - 1)%nat)
        (nth_error yes j).
Proof.
  induction yes as [|ye rest IH]; intros i j.
  - now destruct j.
  - destruct j as [|j]; cbn [pageBodies nth_error option_map].
    + now rewrite Nat.add_0_r.
    + rewrite IH. now replace (S i + j)%nat with (i + S j)%nat by lia.
Qed.

Lemma adaptiveSlices_length (elements : list Q) :
  forall acc,
    length (adaptiveSlices html2canvas o element img acc elements)
    = length elements.
Proof.
  induction elements as [|e rest IH]; intros acc; cbn; [|rewrite IH]; lia.
Qed.

Lemma adaptiveSlices_nth (elements : list Q) :
  forall acc j,
    nth_error (adaptiveSlices html2canvas o element img acc elements) j
    = option_map
        (fun e =>
           (Params.baseY (paramsOf html2canvas o element img)
            - fold_left Qplus (firstn j elements) acc, e))
        (nth_error elements j).
Proof.
  induction elements as [|e rest IH]; intros acc j.
  - now destruct j.
  - destruct j as [|j]; cbn [adaptiveSlices nth_error option_map firstn
                              fold_left].
    + reflexivity.
    + apply IH.
Qed.

Lemma fixedSlices_nth (n j : nat) :
  nth_error (map (fixedSlice html2canvas o element img) (seq 0 n)) j
  = if (j <? n)%nat
    then Some (fixedSlice html2canvas o element img j)
    else None.
Proof.
  rewrite nth_error_map.
  destruct (j <? n)%nat eqn:E.
  - rewrite nth_error_seq, E. reflexivity.
  - apply Nat.ltb_ge in E.
    now rewrite (proj2 (nth_error_None _ _))
      by (now rewrite length_seq).
Qed.

(** [composeAdaptive] on any break sequence. *)
Lemma composeAdaptive_run (elements : list Q) (s : State) :
  exists s',
    composeAdaptive (paramsOf html2canvas o element img) elements s
    = (Ok tt, s')
    /\ pages s'
       = finished s
         ++ appendPages (current s)
              (pageBodies html2canvas o element img
                 (hdOf html2canvas o s) (ftOf html2canvas o s)
                 (length elements) 0
                 (adaptiveSlices html2canvas o element img 0 elements))
    /\ exported s' = exported s
    /\ (elements <> [] ->
        html2canvas_calls s'
        = html2canvas_calls s
          ++ pending (__header s) (Options.header o)
          ++ pending (__footer s) (Options.footer o)
        /\ pending (__header s') (Options.header o) = []
        /\ pending (__footer s') (Options.footer o) = []).
Proof.
  unfold composeAdaptive.
  destruct (pagesLoop_run html2canvas o element img header_ok footer_ok
              (length elements)
              (adaptiveSlices html2canvas o element img 0 elements)
              0%nat s)
    as (s' & R & G & _ & _ & X & Calls).
  { now rewrite adaptiveSlices_length. }
  exists s'. rewrite adaptiveLoop_pagesLoop.
  repeat split; try assumption;
    apply Calls; try (now left);
    destruct elements; [congruence | discriminate
                       | congruence | discriminate
                       | congruence | discriminate].
Qed.

(** [outputWithFixedSize] on a rendered image. *)
Lemma outputWithFixedSize_run (s : State) :
  let n := pageNum (height img) (Options.contentHeight o) in
  exists s',
    outputWithFixedSize (paramsOf html2canvas o element img) s = (Ok tt, s')
    /\ pages s'
       = finished s
         ++ appendPages (current s)
              (pageBodies html2canvas o element img
                 (hdOf html2canvas o s) (ftOf html2canvas o s) n 0
                 (map (fixedSlice html2canvas o element img) (seq 0 n)))
    /\ exported s' = exported s
    /\ ((0 < n)%nat ->
        html2canvas_calls s'
        = html2canvas_calls s
          ++ pending (__header s) (Options.header o)
          ++ pending (__footer s) (Options.footer o)
        /\ pending (__header s') (Options.header o) = []
        /\ pending (__footer s') (Options.footer o) = []).
Proof.
  intros n.
  destruct (pagesLoop_run html2canvas o element img header_ok footer_ok
              n (map (fixedSlice html2canvas o element img) (seq 0 n))
              0%nat s)
    as (s' & R & G & _ & _ & X & Calls).
  { now rewrite length_map, length_seq. }
  exists s'.
  split.
  { rewrite <- R, <- forEach_pagesLoop.
    unfold outputWithFixedSize. rewrite length_seq. reflexivity. }
  repeat split; try assumption;
    apply Calls; try (now left);
    destruct n; cbn; try lia; discriminate.
Qed.
End ClosedForms.

Section FreshRuns.
Variable html2canvas : Node -> option Canvas.
Variables (o : Options.t) (element : Node) (img : Image).
Hypothesis header_ok : rasterizes html2canvas (Options.header o).
Hypothesis footer_ok : rasterizes html2canvas (Options.footer o).

(** On a fresh document the pages are the bodies, one per entry. *)
Lemma composeAdaptive_fresh (elements : list Q) (s : State) :
  freshDocument s ->
  elements <> [] ->
  exists s',
    composeAdaptive (paramsOf html2canvas o element img) elements s
    = (Ok tt, s')
    /\ pages s'
       = pageBodies html2canvas o element img
           (hdOf html2canvas o s) (ftOf html2canvas o s)
           (length elements) 0
           (adaptiveSlices html2canvas o element img 0 elements).
Proof.
  intros Hfresh Hne.
  destruct (composeAdaptive_run html2canvas o element img header_ok
              footer_ok elements s) as (s' & R & G & _).
  exists s'. split; [exact R|]. rewrite G.
  destruct elements as [|e rest]; [congruence|].
  cbn [adaptiveSlices pageBodies]. now apply fresh_pages.
Qed.

Lemma outputWithFixedSize_fresh (s : State) :
  let n := pageNum (height img) (Options.contentHeight o) in
  freshDocument s ->
  (0 < n)%nat ->
  exists s',
    outputWithFixedSize (paramsOf html2canvas o element img) s = (Ok tt, s')
    /\ pages s'
       = pageBodies html2canvas o element img
           (hdOf html2canvas o s) (ftOf html2canvas o s) n 0
           (map (fixedSlice html2canvas o element img) (seq 0 n)).
Proof.
  intros n Hfresh Hn.
  destruct (outputWithFixedSize_run html2canvas o element img header_ok
              footer_ok s) as (s' & R & G & _).
  exists s'. split; [exact R|]. rewrite G. fold n.
  destruct n as [|n']; [lia|].
  cbn [seq map pageBodies]. now apply fresh_pages.
Qed.

Lemma contentOp_in_pageBody (hd ft : option Image) (isFirst isLast : bool)
    (ye : Q * Q) :
  In (contentOp html2canvas o element img (fst ye))
     (pageBody html2canvas o element img hd ft isFirst isLast ye).
Proof. unfold pageBody. now left. Qed.
End FreshRuns.

(** C5: on a fresh document and for a break sequence of [N >= 1] entries, the
    adaptive loop leaves exactly [N] pages, [N - 1] of them closed by
    [addPage], and page [i] holds the root image placed for entry [i], so
    that the page left open is the page of the last entry; the fixed loop
    does the same for its [N = pageNum] indices. *)
Theorem compositor_page_count (html2canvas : Node -> option Canvas)
    (o : Options.t) (element : Node) (img : Image) (elements : list Q)
    (s : State) :
  rasterizes html2canvas (Options.header o) ->
  rasterizes html2canvas (Options.footer o) ->
  freshDocument s ->
  let p := paramsOf html2canvas o element img in
  (elements <> [] ->
   exists s',
     composeAdaptive p elements s = (Ok tt, s')
     /\ length (pages s') = length elements
     /\ length (finished s') = (length elements - 1)%nat
     /\ forall i e,
          nth_error elements i = Some e ->
          exists pg,
            nth_error (pages s') i = Some pg
            /\ In (contentOp html2canvas o element img
                     (Params.baseY p - accumulated elements i)) pg)
  /\ (let n := pageNum (height img) (Options.contentHeight o) in
      (0 < n)%nat ->
      exists s',
        outputWithFixedSize p s = (Ok tt, s')
        /\ length (pages s') = n
        /\ length (finished s') = (n - 1)%nat
        /\ forall i,
             (i < n)%nat ->
             exists pg,
               nth_error (pages s') i = Some pg
               /\ In (contentOp html2canvas o element img
                        (Params.baseY p
                         - inject_Z (Z.of_nat i) * Options.contentHeight o))
                     pg).
Proof.
  intros Hh Hf Hfresh p. split.
  - intros Hne.
    destruct (composeAdaptive_fresh html2canvas o element img Hh Hf
                elements s Hfresh Hne) as (s' & R & G).
    assert (Hlen : length (pages s') = length elements)
      by (now rewrite G, pageBodies_length, adaptiveSlices_length).
    exists s'. split; [exact R|]. split; [exact Hlen|]. split.
    { rewrite pages_finished_length in Hlen. lia. }
    intros i e Hi. rewrite G, pageBodies_nth, adaptiveSlices_nth, Hi.
    cbn [option_map]. eexists. split; [reflexivity|].
    apply (contentOp_in_pageBody html2canvas o element img _ _ _ _
             (_, e)).
  - intros n Hn.
    destruct (outputWithFixedSize_fresh html2canvas o element img Hh Hf
                s Hfresh Hn) as (s' & R & G).
    fold n in G.
    assert (Hlen : length (pages s') = n)
      by (now rewrite G, pageBodies_length, length_map, length_seq).
    exists s'. split; [exact R|]. split; [exact Hlen|]. split.
    { rewrite pages_finished_length in Hlen. lia. }
    intros i Hi. rewrite G, pageBodies_nth, fixedSlices_nth.
    rewrite (proj2 (Nat.ltb_lt _ _) Hi). cbn [option_map].
    eexists. split; [reflexivity|].
    apply (contentOp_in_pageBody html2canvas o element img _ _ _ _
             (fixedSlice html2canvas o element img i)).
Qed.

Lemma pageNum_positive (h c : Q) : 0 < h -> 0 < c -> (0 < pageNum h c)%nat.
Proof.
  intros Hh Hc. unfold pageNum.
  assert (Hq : 0 < h / c) by (apply Qlt_shift_div_l; lra).
  pose proof (Qle_ceiling (h / c)) as Hceil.
  assert (Hz : (0 < Qceiling (h / c))%Z).
  { rewrite Zlt_Qlt. change (inject_Z 0) with 0. lra. }
  lia.
Qed.


Section HeaderPolicy.
Variable html2canvas : Node -> option Canvas.
Variables (o : Options.t) (element : Node) (img : Image).
Variables (hd : Image) (ft : option Image).

Let bx := Params.baseX (paramsOf html2canvas o element img).
Let cw := Options.contentWidth o.

Hypothesis content_differs : data hd <> data img.
Hypothesis footer_differs :
  forall f, ft = Some f -> footerOp bx cw f <> headerOp bx cw hd.

(** The header stamp is on a page exactly when the policy test of the
    closure [addHeader] passes. *)
Lemma headerOp_in_pageBody (isFirst isLast : bool) (ye : Q * Q) :
  In (headerOp bx cw hd)
     (pageBody html2canvas o element img (Some hd) ft isFirst isLast ye)
  <-> isFirst || negb (Options.headerOnlyFirst o) = true.
Proof.
  unfold pageBody. fold bx cw. rewrite !in_app_iff. split.
  - intros [Hc | [Hb | [Hb | [Hh | Hf]]]].
    + destruct Hc as [Hc | []]. unfold contentOp, headerOp in Hc.
      injection Hc; intros; congruence.
    + destruct (negb isFirst); [|contradiction].
      destruct Hb as [Hb | [Hb | []]]; discriminate.
    + destruct (negb isLast); [|contradiction].
      destruct Hb as [Hb | [Hb | []]]; discriminate.
    + unfold stampOps in Hh.
      now destruct (isFirst || negb (Options.headerOnlyFirst o)).
    + unfold stampOps in Hf.
      destruct (isLast || negb (Options.footerOnlyLast o)); [|contradiction].
      destruct ft as [f|]; [|contradiction].
      destruct Hf as [Hf | []]. now apply footer_differs in Hf.
  - intros Hb. right. right. right. left.
    unfold stampOps. rewrite Hb. now left.
Qed.

Lemma headerOp_in_pageBodies (len : nat) (yes : list (Q * Q)) (i : nat)
    (pg : Page) :
  nth_error
    (pageBodies html2canvas o element img (Some hd) ft len 0 yes) i
  = Some pg ->
  In (headerOp bx cw hd) pg
  <-> i = 0%nat \/ Options.headerOnlyFirst o = false.
Proof.
  rewrite pageBodies_nth.
  destruct (nth_error yes i) as [ye|]; [|discriminate].
  cbn [option_map]. intros [= <-]. rewrite headerOp_in_pageBody.
  cbn [Nat.add]. rewrite orb_true_iff, Nat.eqb_eq, negb_true_iff.
  reflexivity.
Qed.
End HeaderPolicy.

(** C6: with a header that is an element and rasterizes to [hd], on a fresh
    document, and for any number of pages: the header stamp is on page [i]
    exactly when [i = 0] or [headerOnlyFirst] is false.  So it is on page 0
    only when [headerOnlyFirst] is true, and on every page when it is false.
    The bitmap of the header is told apart from the root image by its data
    and from the footer stamp by its placement. *)
Theorem header_stamp_policy (html2canvas : Node -> option Canvas)
    (o : Options.t) (element : Node) (img hd : Image) (elements : list Q)
    (s : State) :
  rasterizes html2canvas (Options.header o) ->
  rasterizes html2canvas (Options.footer o) ->
  freshDocument s ->
  hdOf html2canvas o s = Some hd ->
  data hd <> data img ->
  let p := paramsOf html2canvas o element img in
  let stamp := headerOp (Params.baseX p) (Options.contentWidth o) hd in
  (forall f, ftOf html2canvas o s = Some f ->
     footerOp (Params.baseX p) (Options.contentWidth o) f <> stamp) ->
  (elements <> [] ->
   exists s',
     composeAdaptive p elements s = (Ok tt, s')
     /\ length (pages s') = length elements
     /\ forall i pg,
          nth_error (pages s') i = Some pg ->
          In stamp pg <-> i = 0%nat \/ Options.headerOnlyFirst o = false)
  /\ (let n := pageNum (height img) (Options.contentHeight o) in
      (0 < n)%nat ->
      exists s',
        outputWithFixedSize p s = (Ok tt, s')
        /\ length (pages s') = n
        /\ forall i pg,
             nth_error (pages s') i = Some pg ->
             In stamp pg <-> i = 0%nat \/ Options.headerOnlyFirst o = false).
Proof.
  intros Hh Hf Hfresh Hhd Hdata p stamp Hfoot. split.
  - intros Hne.
    destruct (composeAdaptive_fresh html2canvas o element img Hh Hf
                elements s Hfresh Hne) as (s' & R & G).
    exists s'. split; [exact R|]. split.
    { now rewrite G, pageBodies_length, adaptiveSlices_length. }
    intros i pg Hpg. rewrite G, Hhd in Hpg.
    exact (headerOp_in_pageBodies html2canvas o element img hd _ Hdata Hfoot
             _ _ _ _ Hpg).
  - intros n Hn.
    destruct (outputWithFixedSize_fresh html2canvas o element img Hh Hf
                s Hfresh Hn) as (s' & R & G).
    fold n in G.
    exists s'. split; [exact R|]. split.
    { now rewrite G, pageBodies_length, length_map, length_seq. }
    intros i pg Hpg. rewrite G, Hhd in Hpg.
    exact (headerOp_in_pageBodies html2canvas o element img hd _ Hdata Hfoot
             _ _ _ _ Hpg).
Qed.

(** C9: within the page loop of one generation call, whatever the number of
    pages and the two policy flags, the rasterizer is asked exactly for what
    the cache fields miss at the start: once for a header that is an element
    and not yet cached, once for such a footer, and never again, since after
    the loop nothing is pending.  A stamp on an empty cache field makes one
    call, stores the bitmap and draws it; a stamp on a filled cache field
    makes no call and draws the cached bitmap. *)
Theorem bands_rasterized_once (html2canvas : Node -> option Canvas)
    (o : Options.t) (element : Node) (img : Image) (elements : list Q)
    (s : State) :
  rasterizes html2canvas (Options.header o) ->
  rasterizes html2canvas (Options.footer o) ->
  let p := paramsOf html2canvas o element img in
  (elements <> [] ->
   exists s',
     composeAdaptive p elements s = (Ok tt, s')
     /\ html2canvas_calls s'
        = html2canvas_calls s
          ++ pending (__header s) (Options.header o)
          ++ pending (__footer s) (Options.footer o)
     /\ pending (__header s') (Options.header o) = []
     /\ pending (__footer s') (Options.footer o) = [])
  /\ ((0 < pageNum (height img) (Options.contentHeight o))%nat ->
      exists s',
        outputWithFixedSize p s = (Ok tt, s')
        /\ html2canvas_calls s'
           = html2canvas_calls s
             ++ pending (__header s) (Options.header o)
             ++ pending (__footer s) (Options.footer o)
        /\ pending (__header s') (Options.header o) = []
        /\ pending (__footer s') (Options.footer o) = [])
  /\ (forall x w v el c s1,
        as_HTMLElement v = Some el ->
        html2canvas el = Some c ->
        let fresh := mkImage w (w / canvas_width c * canvas_height c)
                       (toDataURL c) in
        (__header s1 = None ->
         exists s2,
           addHeader html2canvas x w v s1 = (Ok tt, s2)
           /\ html2canvas_calls s2 = html2canvas_calls s1 ++ [el]
           /\ __header s2 = Some fresh
           /\ current s2 = current s1 ++ [headerOp x w fresh])
        /\ (__footer s1 = None ->
            exists s2,
              addFooter html2canvas x w v s1 = (Ok tt, s2)
              /\ html2canvas_calls s2 = html2canvas_calls s1 ++ [el]
              /\ __footer s2 = Some fresh
              /\ current s2 = current s1 ++ [footerOp x w fresh]))
  /\ (forall x w v el cached s1,
        as_HTMLElement v = Some el ->
        (__header s1 = Some cached ->
         exists s2,
           addHeader html2canvas x w v s1 = (Ok tt, s2)
           /\ html2canvas_calls s2 = html2canvas_calls s1
           /\ __header s2 = Some cached
           /\ current s2 = current s1 ++ [headerOp x w cached])
        /\ (__footer s1 = Some cached ->
            exists s2,
              addFooter html2canvas x w v s1 = (Ok tt, s2)
              /\ html2canvas_calls s2 = html2canvas_calls s1
              /\ __footer s2 = Some cached
              /\ current s2 = current s1 ++ [footerOp x w cached])).
Proof.
  intros Hh Hf p. split; [|split; [|split]].
  - intros Hne.
    destruct (composeAdaptive_run html2canvas o element img Hh Hf elements s)
      as (s' & R & _ & _ & Calls).
    exists s'. split; [exact R|]. now apply Calls.
  - intros Hn.
    destruct (outputWithFixedSize_run html2canvas o element img Hh Hf s)
      as (s' & R & _ & _ & Calls).
    exists s'. split; [exact R|]. now apply Calls.
  - intros x w v el c s1 Hel Hr fresh. split; intros Hc.
    + eexists. unfold addHeader, bind, get_header, toCanvas,
        call_html2canvas, set_header, ret, draw.
      rewrite Hel, Hc. cbn. rewrite Hr. cbn. repeat split; reflexivity.
    + eexists. unfold addFooter, bind, get_footer, toCanvas,
        call_html2canvas, set_footer, ret, draw.
      rewrite Hel, Hc. cbn. rewrite Hr. cbn. repeat split; reflexivity.
  - intros x w v el cached s1 Hel. split; intros Hc.
    + eexists. unfold addHeader, bind, get_header, ret, draw.
      rewrite Hel, Hc. cbn. rewrite Hc. repeat split; reflexivity.
    + eexists. unfold addFooter, bind, get_footer, ret, draw.
      rewrite Hel, Hc. cbn. rewrite Hc. repeat split; reflexivity.
Qed.

(** C10: a header or footer that is not an element makes the stamp a no-op:
    [pdf.addHeader], [pdf.addFooter] and the two closures of [outputPdf]
    return normally and leave the state as it is (the pages, the rasterizer
    calls and the two cache fields), on every page. *)
Theorem stamp_of_non_element_is_noop (html2canvas : Node -> option Canvas)
    (o : Options.t) (element : Node) (img : Image) (x w : Q) (v : JsValue)
    (b : bool) (s : State) :
  as_HTMLElement v = None ->
  addHeader html2canvas x w v s = (Ok tt, s)
  /\ addFooter html2canvas x w v s = (Ok tt, s)
  /\ (Options.header o = v ->
      Params.addHeader (paramsOf html2canvas o element img) b s = (Ok tt, s))
  /\ (Options.footer o = v ->
      Params.addFooter (paramsOf html2canvas o element img) b s = (Ok tt, s)).
Proof.
  intros Hv. unfold addHeader, addFooter. rewrite Hv.
  repeat split.
  - intros Ho. cbn [paramsOf Params.addHeader]. rewrite Ho.
    unfold when, addHeader. rewrite Hv. now destruct (_ || _).
  - intros Ho. cbn [paramsOf Params.addFooter]. rewrite Ho.
    unfold when, addFooter. rewrite Hv. now destruct (_ || _).
Qed.

(** C8: when [element] is not an element, [outputPdf] throws its input
    error at once: no call reaches the rasterizer, no artifact is written
    and the state is left as it was. *)
Theorem outputPdf_rejects_non_element (html2canvas : Node -> option Canvas)
    (o : Options.t) (s : State) :
  as_HTMLElement (Options.element o) = None ->
  exists s',
    outputPdf html2canvas o s
    = (Throw (Error_ "The root element must be HTMLElement."), s')
    /\ html2canvas_calls s' = html2canvas_calls s
    /\ exported s' = exported s
    /\ s' = s.
Proof.
  intros Hel. exists s. unfold outputPdf. rewrite Hel.
  repeat split; reflexivity.
Qed.

(** ** Blanking rectangles and the content band *)

(** Name every [Qmin] and [Qmax] and split on which argument it is. *)
Ltac name_max a b :=
  let H := fresh "Hmax" in
  let m := fresh "m" in
  pose proof (Q.max_spec a b) as H;
  set (m := Qmax a b) in *; clearbody m;
  destruct H as [[? ?]|[? ?]].

Ltac name_min a b :=
  let H := fresh "Hmin" in
  let m := fresh "m" in
  pose proof (Q.min_spec a b) as H;
  set (m := Qmin a b) in *; clearbody m;
  destruct H as [[? ?]|[? ?]].

Ltac split_minmax :=
  repeat match goal with
    | |- context [Qmax ?a ?b] => name_max a b
    | |- context [Qmin ?a ?b] => name_min a b
    | _ : context [Qmax ?a ?b] |- _ => name_max a b
    | _ : context [Qmin ?a ?b] |- _ => name_min a b
    end.

Lemma Math_ceil_ge (q : Q) : q <= Math_ceil q.
Proof. apply Qle_ceiling. Qed.

Lemma Math_ceil_lt (q : Q) : Math_ceil q - q < 1.
Proof.
  unfold Math_ceil. pose proof (Qceiling_lt q) as H.
  unfold Z.sub in H. rewrite inject_Z_plus, inject_Z_opp in H.
  change (inject_Z 1) with 1 in H. lra.
Qed.

Lemma overlaps_intrusion (a b : Box) : overlaps a b -> 0 < intrusion a b.
Proof.
  unfold overlaps, intrusion. intros [_ Hy]. revert Hy.
  split_minmax; intros; lra.
Qed.

(** The rectangle above the band reaches [Math.ceil(baseY)]: it runs into
    the band by the fraction that [Math.ceil] adds. *)
Lemma topBlank_intrusion (baseX baseY contentWidth e wd : Q) :
  0 <= baseY -> 0 <= e ->
  intrusion (rectBox 0 0 wd (Math_ceil baseY))
    (contentBand baseX baseY contentWidth e)
  <= Math_ceil baseY - baseY.
Proof.
  intros Hb He. pose proof (Math_ceil_ge baseY) as Hc.
  unfold intrusion, contentBand, rectBox. cbn [y_min y_max].
  split_minmax; lra.
Qed.

(** The rectangle below the band starts where the band ends. *)
Lemma bottomBlank_clear (baseX baseY contentWidth e wd : Q) :
  0 <= e -> baseY + e <= A4_HEIGHT ->
  ~ overlaps
      (rectBox 0 (baseY + e) wd (Math_ceil (A4_HEIGHT - (baseY + e))))
      (contentBand baseX baseY contentWidth e).
Proof.
  intros He Hfit.
  pose proof (Math_ceil_ge (A4_HEIGHT - (baseY + e))) as Hc.
  unfold overlaps, contentBand, rectBox. cbn [x_min x_max y_min y_max].
  intros [_ Hy]. revert Hy.
  split_minmax; intros; lra.
Qed.

Section Blanks.
Variable html2canvas : Node -> option Canvas.
Variables (o : Options.t) (element : Node) (img : Image).

Let baseX := Params.baseX (paramsOf html2canvas o element img).
Let baseY := Params.baseY (paramsOf html2canvas o element img).
Let band := contentBand baseX baseY (Options.contentWidth o).

(** The only rectangles of a page are its two blanks. *)
Lemma rect_in_pageBody (hd ft : option Image) (isFirst isLast : bool)
    (ye : Q * Q) (r : DrawOp) (x y w h : Q) (style : string) :
  r = Op_rect x y w h style ->
  In r (pageBody html2canvas o element img hd ft isFirst isLast ye) ->
  (isFirst = false /\ r = topBlank baseY)
  \/ (isLast = false /\ r = bottomBlank baseY (snd ye)).
Proof.
  intros ->. unfold pageBody. fold baseY. rewrite !in_app_iff.
  intros [Hc | [Hb | [Hb | [Hs | Hs]]]].
  - destruct Hc as [Hc | []]. discriminate.
  - destruct isFirst; cbn [negb] in Hb; [contradiction|].
    destruct Hb as [Hb | [Hb | []]]; [discriminate|].
    left. split; [reflexivity|]. now rewrite <- Hb.
  - destruct isLast; cbn [negb] in Hb; [contradiction|].
    destruct Hb as [Hb | [Hb | []]]; [discriminate|].
    right. split; [reflexivity|]. now rewrite <- Hb.
  - unfold stampOps in Hs.
    destruct (_ || _); [|contradiction].
    destruct hd; [|contradiction].
    destruct Hs as [Hs | []]. discriminate.
  - unfold stampOps in Hs.
    destruct (_ || _); [|contradiction].
    destruct ft; [|contradiction].
    destruct Hs as [Hs | []]. discriminate.
Qed.

(** On a page whose band lies on the sheet, the blank above runs into
    the band by at most what [Math.ceil] adds to [baseY], and the blank
    below does not overlap it. *)
Lemma pageBody_blanks (hd ft : option Image) (isFirst isLast : bool)
    (ye : Q * Q) (x y w h : Q) (style : string) :
  0 <= baseY -> 0 <= snd ye -> baseY + snd ye <= A4_HEIGHT ->
  In (Op_rect x y w h style)
     (pageBody html2canvas o element img hd ft isFirst isLast ye) ->
  (Op_rect x y w h style = topBlank baseY
   /\ isFirst = false
   /\ intrusion (rectBox x y w h) (band (snd ye))
      <= Math_ceil baseY - baseY)
  \/ (Op_rect x y w h style = bottomBlank baseY (snd ye)
      /\ isLast = false
      /\ ~ overlaps (rectBox x y w h) (band (snd ye))).
Proof.
  intros Hb He Hfit Hin.
  destruct (rect_in_pageBody hd ft isFirst isLast ye _ x y w h style
              eq_refl Hin) as [[Hf Hr] | [Hl Hr]].
  - left. split; [exact Hr|]. split; [exact Hf|].
    unfold topBlank in Hr. injection Hr as -> -> -> -> _.
    now apply topBlank_intrusion.
  - right. split; [exact Hr|]. split; [exact Hl|].
    unfold bottomBlank in Hr. injection Hr as -> -> -> -> _.
    now apply bottomBlank_clear.
Qed.

Lemma pageBody_clear (hd ft : option Image) (isFirst isLast : bool)
    (ye : Q * Q) (x y w h : Q) (style : string) :
  Math_ceil baseY == baseY ->
  0 <= baseY -> 0 <= snd ye -> baseY + snd ye <= A4_HEIGHT ->
  In (Op_rect x y w h style)
     (pageBody html2canvas o element img hd ft isFirst isLast ye) ->
  ~ overlaps (rectBox x y w h) (band (snd ye)).
Proof.
  intros Hint Hb He Hfit Hin.
  destruct (pageBody_blanks hd ft isFirst isLast ye x y w h style
              Hb He Hfit Hin) as [(_ & _ & Hi) | (_ & _ & Hc)];
    [|exact Hc].
  intros Hov. apply overlaps_intrusion in Hov. lra.
Qed.
End Blanks.

Section PagesAt.
Variable html2canvas : Node -> option Canvas.
Variables (o : Options.t) (element : Node) (img : Image).
Variables (hd ft : option Image).

Lemma adaptive_page_at (elements : list Q) (i : nat) (pg : Page) (e : Q) :
  nth_error
    (pageBodies html2canvas o element img hd ft (length elements) 0
       (adaptiveSlices html2canvas o element img 0 elements)) i
  = Some pg ->
  nth_error elements i = Some e ->
  pg = pageBody html2canvas o element img hd ft
         (i =? 0)%nat (i =? length elements - 1)%nat
         (Params.baseY (paramsOf html2canvas o element img)
          - accumulated elements i, e).
Proof.
  rewrite pageBodies_nth, adaptiveSlices_nth. intros Hpg Hi.
  rewrite Hi in Hpg. cbn [option_map] in Hpg.
  injection Hpg as <-. reflexivity.
Qed.

Lemma fixed_page_at (n i : nat) (pg : Page) :
  nth_error
    (pageBodies html2canvas o element img hd ft n 0
       (map (fixedSlice html2canvas o element img) (seq 0 n))) i
  = Some pg ->
  (i < n)%nat
  /\ pg = pageBody html2canvas o element img hd ft
            (i =? 0)%nat (i =? n - 1)%nat
            (fixedSlice html2canvas o element img i).
Proof.
  rewrite pageBodies_nth, fixedSlices_nth.
  destruct (i <? n)%nat eqn:E; [|discriminate].
  cbn [option_map Nat.add]. intros [= <-].
  split; [now apply Nat.ltb_lt | reflexivity].
Qed.
End PagesAt.

(** C1, as the code has it.  With [0 <= baseY], on every page whose own band
    lies on the sheet, that is whose entry [e] has [0 <= e] and
    [baseY + e <= H], each rectangle filled is either the blank above the
    band, drawn on the pages after the first from 0 down to
    [Math.ceil(baseY)], which runs into the band by at most
    [Math.ceil(baseY) - baseY < 1], or the blank below the band, drawn on the
    pages before the last from [baseY + e] on, which does not overlap the
    band; and when [baseY] is an integer no rectangle of that page overlaps
    its band.  Nothing is asked of the other pages.  This holds for the
    entries of the adaptive loop and for the [contentHeight] of the fixed
    loop. *)
Theorem blanks_against_band (html2canvas : Node -> option Canvas)
    (o : Options.t) (element : Node) (img : Image) (elements : list Q)
    (s : State) :
  rasterizes html2canvas (Options.header o) ->
  rasterizes html2canvas (Options.footer o) ->
  freshDocument s ->
  let p := paramsOf html2canvas o element img in
  let baseY := Params.baseY p in
  let band := contentBand (Params.baseX p) baseY (Options.contentWidth o) in
  0 <= baseY ->
  Math_ceil baseY - baseY < 1
  /\ (elements <> [] ->
      exists s',
        composeAdaptive p elements s = (Ok tt, s')
        /\ forall i pg e x y w h style,
             nth_error (pages s') i = Some pg ->
             nth_error elements i = Some e ->
             0 <= e -> baseY + e <= A4_HEIGHT ->
             In (Op_rect x y w h style) pg ->
             ((Op_rect x y w h style = topBlank baseY
               /\ i <> 0%nat
               /\ intrusion (rectBox x y w h) (band e)
                  <= Math_ceil baseY - baseY)
              \/ (Op_rect x y w h style = bottomBlank baseY e
                  /\ (S i < length elements)%nat
                  /\ ~ overlaps (rectBox x y w h) (band e)))
             /\ (Math_ceil baseY == baseY ->
                 ~ overlaps (rectBox x y w h) (band e)))
  /\ (let n := pageNum (height img) (Options.contentHeight o) in
      let c := Options.contentHeight o in
      (0 < n)%nat ->
      exists s',
        outputWithFixedSize p s = (Ok tt, s')
        /\ forall i pg x y w h style,
             nth_error (pages s') i = Some pg ->
             0 <= c -> baseY + c <= A4_HEIGHT ->
             In (Op_rect x y w h style) pg ->
             ((Op_rect x y w h style = topBlank baseY
               /\ i <> 0%nat
               /\ intrusion (rectBox x y w h) (band c)
                  <= Math_ceil baseY - baseY)
              \/ (Op_rect x y w h style = bottomBlank baseY c
                  /\ (S i < n)%nat
                  /\ ~ overlaps (rectBox x y w h) (band c)))
             /\ (Math_ceil baseY == baseY ->
                 ~ overlaps (rectBox x y w h) (band c))).
Proof.
  intros Hh Hf Hfresh p baseY band Hb.
  split; [apply Math_ceil_lt|]. split.
  - intros Hne.
    destruct (composeAdaptive_fresh html2canvas o element img Hh Hf
                elements s Hfresh Hne) as (s' & R & G).
    exists s'. split; [exact R|].
    intros i pg e x y w h style Hpg Hi He Hfit Hin.
    rewrite G in Hpg.
    pose proof (adaptive_page_at html2canvas o element img _ _ _ _ _ _
                  Hpg Hi) as ->.
    assert (Hlt : (i < length elements)%nat)
      by (apply nth_error_Some; congruence).
    split.
    + destruct (pageBody_blanks html2canvas o element img _ _ _ _
                  (_, e) x y w h style Hb He Hfit Hin)
        as [(Hr & Hfirst & Hi') | (Hr & Hlast & Hc)].
      * left. split; [exact Hr|]. split; [|exact Hi'].
        now apply Nat.eqb_neq in Hfirst.
      * right. split; [exact Hr|]. split; [|exact Hc].
        apply Nat.eqb_neq in Hlast. lia.
    + intros Hint.
      exact (pageBody_clear html2canvas o element img _ _ _ _
               (_, e) x y w h style Hint Hb He Hfit Hin).
  - intros n c Hn.
    destruct (outputWithFixedSize_fresh html2canvas o element img Hh Hf
                s Hfresh Hn) as (s' & R & G).
    fold n in G.
    exists s'. split; [exact R|].
    intros i pg x y w h style Hpg Hc Hfit Hin.
    rewrite G in Hpg.
    destruct (fixed_page_at html2canvas o element img _ _ _ _ _ Hpg)
      as [Hlt ->].
    split.
    + destruct (pageBody_blanks html2canvas o element img _ _ _ _
                  (fixedSlice html2canvas o element img i)
                  x y w h style Hb Hc Hfit Hin)
        as [(Hr & Hfirst & Hi') | (Hr & Hlast & Hcl)].
      * left. split; [exact Hr|]. split; [|exact Hi'].
        now apply Nat.eqb_neq in Hfirst.
      * right. split; [exact Hr|]. split; [|exact Hcl].
        apply Nat.eqb_neq in Hlast. lia.
    + intros Hint.
      exact (pageBody_clear html2canvas o element img _ _ _ _
               (fixedSlice html2canvas o element img i)
               x y w h style Hint Hb Hc Hfit Hin).
Qed.

(** C1 fails as stated: with the default options ([contentHeight = 800],
    [y] left out, so [baseY = 20.945]) and an image 1000 high in two fixed
    pages, the blank above the band of the second page is
    [rect(0, 0, 593, 21)], which covers the band from 20.945 to 21. *)
Lemma blanks_overlap_band_default_options :
  let o := Options.defaults (JsNode Example.root) in
  let p := paramsOf Example.html2canvas o Example.root Example.image in
  let band := contentBand (Params.baseX p) (Params.baseY p)
                (Options.contentWidth o) (Options.contentHeight o) in
  ~ blanksClearOfBands
      (pages (snd (outputWithFixedSize p Example.start)))
      (repeat band 2).
Proof.
  intros o p band Hclear.
  refine (Hclear 1%nat _ _ 0 0 593 21 "F"%string _ _ _ _).
  - vm_compute. reflexivity.
  - vm_compute. reflexivity.
  - vm_compute. right. right. left. reflexivity.
  - split; vm_compute; reflexivity.
Qed.

(** Why the band has to lie on the sheet: with [baseY = 20] an entry of 900
    ends below the sheet, [addBlank] gets the height
    [841.89 - 920 = -78.11], and [rect(0, 920, 593, -78)] reaches back into
    the band. *)
Lemma blanks_overlap_band_oversized_entry :
  let p := paramsOf Example.html2canvas Example.options Example.root
             Example.image in
  ~ blanksClearOfBands
      (pages (snd (composeAdaptive p [900; 100] Example.start)))
      (map (contentBand (Params.baseX p) (Params.baseY p) 550) [900; 100]).
Proof.
  intros p Hclear.
  refine (Hclear 0%nat _ _ 0 920 593 (-78) "F"%string _ _ _ _).
  - vm_compute. reflexivity.
  - vm_compute. reflexivity.
  - vm_compute. right. right. left. reflexivity.
  - split; vm_compute; reflexivity.
Qed.

(** ** [outputPdf] from end to end *)

Lemma splitElement_nonempty (element : Node) (contentWidth contentHeight : Q)
    (itemName groupName : string) :
  Scanner.splitElement element contentWidth contentHeight itemName groupName
  <> [].
Proof.
  unfold Scanner.splitElement, Scanner.finish.
  intros H. apply app_eq_nil in H as [_ H]. discriminate.
Qed.

Lemma output2_run (outputType filename : string) (s : State) :
  exists a,
    output2 outputType filename s
    = (Ok a, mkState (html2canvas_calls s) (finished s) (current s)
               (__header s) (__footer s) (exported s ++ [a])).
Proof.
  unfold output2.
  destruct (String.eqb outputType "file");
    [|destruct (String.eqb outputType "save")];
    eexists; reflexivity.
Qed.

(** A valid call in adaptive mode: the root is rasterized once, on a fresh
    document; the pages are the bodies of the break sequence computed by
    [splitElement]; the header and the footer are rasterized once each when
    they are elements; one artifact is written. *)
Lemma outputPdf_adaptive_run (html2canvas : Node -> option Canvas)
    (o : Options.t) (el : Node) (c : Canvas) (s : State) :
  as_HTMLElement (Options.element o) = Some el ->
  html2canvas el = Some c ->
  Options.mode o = "adaptive"%string ->
  rasterizes html2canvas (Options.header o) ->
  rasterizes html2canvas (Options.footer o) ->
  let cw := Options.contentWidth o in
  let img := mkImage cw (cw / canvas_width c * canvas_height c)
               (toDataURL c) in
  let elements :=
    Scanner.splitElement el cw (Options.contentHeight o)
      (Options.itemName o) (Options.groupName o) in
  exists a s',
    outputPdf html2canvas o s = (Ok a, s')
    /\ pages s'
       = pageBodies html2canvas o el img
           (bandImage html2canvas None (Options.header o) cw)
           (bandImage html2canvas None (Options.footer o) cw)
           (length elements) 0
           (adaptiveSlices html2canvas o el img 0 elements)
    /\ html2canvas_calls s'
       = html2canvas_calls s ++ [el]
         ++ pending None (Options.header o)
         ++ pending None (Options.footer o)
    /\ exported s' = exported s ++ [a].
Proof.
  intros Hel Hc Hmode Hh Hf cw img elements.
  set (s1 := mkState (html2canvas_calls s ++ [el]) [] [] None None
               (exported s)).
  assert (Hne : elements <> []) by apply splitElement_nonempty.
  destruct (composeAdaptive_run html2canvas o el img Hh Hf elements s1)
    as (s2 & R & G & X & Calls).
  destruct (Calls Hne) as (Cs & _ & _).
  destruct (output2_run (Options.outputType o) (Options.filename o) s2)
    as (a & Ro).
  exists a. eexists. split; [|split; [|split]].
  - unfold outputPdf. rewrite Hel.
    unfold bind at 1. cbn [new_jsPDF].
    unfold bind at 1, toCanvas, bind at 1, call_html2canvas.
    cbn [html2canvas_calls finished current __header __footer exported].
    rewrite Hc. cbn [ret]. rewrite Hmode. cbn [String.eqb Ascii.eqb Bool.eqb].
    unfold outputWithAdaptive.
    cbn [paramsOf Params.element Params.contentWidth Params.contentHeight
         Params.itemName Params.groupName].
    fold cw img elements. fold s1.
    erewrite bind_ok by exact R. exact Ro.
  - unfold pages in *. cbn [finished current]. rewrite G.
    destruct elements as [|e rest]; [congruence|].
    cbn [adaptiveSlices pageBodies]. reflexivity.
  - cbn [html2canvas_calls]. rewrite Cs. cbn [s1 html2canvas_calls
      __header __footer]. now rewrite <- app_assoc.
  - cbn [exported]. now rewrite X.
Qed.

(** ** The statements on the example document *)

Lemma example_header_ok :
  rasterizes Example.html2canvas (Options.header Example.options).
Proof. vm_compute. discriminate. Defined.

Lemma example_footer_ok :
  rasterizes Example.html2canvas (Options.footer Example.options).
Proof. vm_compute. discriminate. Defined.

Lemma example_fresh : freshDocument Example.start.
Proof. split; reflexivity. Defined.

(** C1 on the example ([baseY = 20]) with the entries 300, 900 and 100: the
    band of the second page ends below the sheet, the bands of the first and
    of the third page lie on it. *)
Lemma blanks_against_band_witness :
  let p := paramsOf Example.html2canvas Example.options Example.root
             Example.image in
  exists s',
    composeAdaptive p [300; 900; 100] Example.start = (Ok tt, s')
    /\ (forall pg x y w h style,
          nth_error (pages s') 0 = Some pg ->
          In (Op_rect x y w h style) pg ->
          ~ overlaps (rectBox x y w h)
              (contentBand (Params.baseX p) 20 550 300))
    /\ (forall pg x y w h style,
          nth_error (pages s') 2 = Some pg ->
          In (Op_rect x y w h style) pg ->
          ~ overlaps (rectBox x y w h)
              (contentBand (Params.baseX p) 20 550 100)).
Proof.
  intros p.
  destruct (blanks_against_band Example.html2canvas Example.options
              Example.root Example.image [300; 900; 100] Example.start
              example_header_ok example_footer_ok example_fresh)
    as (_ & Hadaptive & _).
  { vm_compute. discriminate. }
  destruct Hadaptive as (s' & R & Hpage).
  { discriminate. }
  exists s'. split; [exact R|]. split.
  - intros pg x y w h style Hpg Hin.
    apply (Hpage 0%nat pg 300 x y w h style Hpg eq_refl);
      [vm_compute; discriminate | vm_compute; discriminate | exact Hin
      | reflexivity].
  - intros pg x y w h style Hpg Hin.
    apply (Hpage 2%nat pg 100 x y w h style Hpg eq_refl);
      [vm_compute; discriminate | vm_compute; discriminate | exact Hin
      | reflexivity].
Defined.

(** C5 on the example: two entries, two pages, one [addPage]. *)
Lemma compositor_page_count_witness :
  let p := paramsOf Example.html2canvas Example.options Example.root
             Example.image in
  exists s',
    composeAdaptive p [300; 700] Example.start = (Ok tt, s')
    /\ length (pages s') = 2%nat
    /\ length (finished s') = 1%nat.
Proof.
  intros p.
  destruct (compositor_page_count Example.html2canvas Example.options
              Example.root Example.image [300; 700] Example.start
              example_header_ok example_footer_ok example_fresh)
    as (Hadaptive & _).
  destruct Hadaptive as (s' & R & L & F & _).
  { discriminate. }
  exists s'. repeat split; assumption.
Defined.

(** C6 on the example: [headerOnlyFirst] is true. *)
Lemma header_stamp_policy_witness :
  let p := paramsOf Example.html2canvas Example.options Example.root
             Example.image in
  exists s',
    composeAdaptive p [300; 700] Example.start = (Ok tt, s')
    /\ forall i pg,
         nth_error (pages s') i = Some pg ->
         In (headerOp (Params.baseX p) 550 Example.bannerImage) pg
         <-> i = 0%nat \/ true = false.
Proof.
  intros p.
  destruct (header_stamp_policy Example.html2canvas Example.options
              Example.root Example.image Example.bannerImage [300; 700]
              Example.start example_header_ok example_footer_ok
              example_fresh)
    as (Hadaptive & _).
  { reflexivity. }
  { vm_compute. discriminate. }
  { intros f Hf. vm_compute in Hf. injection Hf as <-.
    vm_compute. discriminate. }
  destruct Hadaptive as (s' & R & _ & Hstamp).
  { discriminate. }
  exists s'. split; [exact R | exact Hstamp].
Defined.


(** C8 on a selector string passed instead of an element. *)
Lemma outputPdf_rejects_non_element_witness :
  exists s',
    outputPdf Example.html2canvas (Options.defaults (JsString "#root"))
      Example.start
    = (Throw (Error_ "The root element must be HTMLElement."), s')
    /\ html2canvas_calls s' = []
    /\ exported s' = [].
Proof.
  destruct (outputPdf_rejects_non_element Example.html2canvas
              (Options.defaults (JsString "#root")) Example.start)
    as (s' & R & C & X & _).
  { reflexivity. }
  exists s'. repeat split; assumption.
Defined.

(** C9 on the example, the footer being stamped on both pages. *)
Lemma bands_rasterized_once_witness :
  let p := paramsOf Example.html2canvas Example.options Example.root
             Example.image in
  exists s',
    composeAdaptive p [300; 700] Example.start = (Ok tt, s')
    /\ html2canvas_calls s' = [Example.banner; Example.footnote].
Proof.
  intros p.
  destruct (bands_rasterized_once Example.html2canvas Example.options
              Example.root Example.image [300; 700] Example.start
              example_header_ok example_footer_ok)
    as (Hadaptive & _).
  destruct Hadaptive as (s' & R & C & _).
  { discriminate. }
  exists s'. split; [exact R | exact C].
Defined.

(** C10 on a selector string passed as header. *)
Lemma stamp_of_non_element_is_noop_witness :
  addHeader Example.html2canvas 21 550 (JsString "#header") Example.start
  = (Ok tt, Example.start)
  /\ addFooter Example.html2canvas 21 550 (JsString "#header") Example.start
     = (Ok tt, Example.start).
Proof.
  destruct (stamp_of_non_element_is_noop Example.html2canvas Example.options
              Example.root Example.image 21 550 (JsString "#header") true
              Example.start)
    as (Hh & Hf & _).
  { reflexivity. }
  split; [exact Hh | exact Hf].
Defined.

End CompositorFacts.

(** * Further properties of the layout scanner *)

Module ScannerExtras.
Import Scanner ScannerFacts.

Section Entries.
Variable contentHeight : Q.

(** The sequence built by [updatePos] and the last [push], read from the
    front. *)
Lemma finish_updateAll (hs : list Q) :
  forall st,
    finish (updateAll contentHeight hs st)
    = res st ++ entriesFrom contentHeight (pos st) hs.
Proof.
  induction hs as [|h hs IH]; intros st.
  - reflexivity.
  - change (updateAll contentHeight (h :: hs) st)
      with (updateAll contentHeight hs (updatePos contentHeight h st)).
    rewrite IH. unfold updatePos. cbn [entriesFrom].
    destruct (Qle_bool (pos st + h) contentHeight); cbn [res pos].
    + reflexivity.
    + now rewrite <- app_assoc.
Qed.

Lemma forced_compat (prev prev' : Q) (groups : list (list Q)) :
  prev == prev' ->
  forced contentHeight prev groups -> forced contentHeight prev' groups.
Proof.
  intros Heq. destruct groups as [|[|h grp] groups]; cbn; trivial.
  intros [Hlt Hrest]. split; [lra | exact Hrest].
Qed.

(** The entries are the totals of consecutive groups of items, the first
    group being added to what the page holds, and every later group opens
    with the item that forced the break. *)
Lemma entriesFrom_groups (hs : list Q) :
  forall pos,
    exists grp groups e es,
      concat (grp :: groups) = hs
      /\ entriesFrom contentHeight pos hs = e :: es
      /\ e == pos + Qsum grp
      /\ Forall2 (fun e g => e == Qsum g) es groups
      /\ forced contentHeight (pos + Qsum grp) groups.
Proof.
  induction hs as [|h hs IH]; intros pos.
  - exists [], [], pos, []. cbn. repeat split; try constructor. ring.
  - cbn [entriesFrom].
    destruct (Qle_bool (pos + h) contentHeight) eqn:Hfit.
    + destruct (IH (pos + h))
        as (grp & groups & e & es & Hc & He & Hs & Hf & Hb).
      exists (h :: grp), groups, e, es.
      split; [cbn in *; now rewrite Hc|].
      split; [exact He|].
      split; [cbn [Qsum]; rewrite Hs; ring|].
      split; [exact Hf|].
      apply (forced_compat (pos + h + Qsum grp)); [cbn [Qsum]; ring|exact Hb].
    + destruct (IH h) as (grp & groups & e & es & Hc & He & Hs & Hf & Hb).
      exists [], ((h :: grp) :: groups), pos, (e :: es).
      split; [cbn in *; now rewrite Hc|].
      split; [now rewrite He|].
      split; [cbn [Qsum]; ring|].
      split; [constructor; [cbn [Qsum]; exact Hs | exact Hf]|].
      cbn [forced]. split.
      * apply not_true_iff_false in Hfit. rewrite Qle_bool_iff in Hfit.
        cbn [Qsum]. lra.
      * exact Hb.
Qed.

Lemma forced_nth (groups : list (list Q)) :
  forall grp,
    forced contentHeight (Qsum grp) groups ->
    (forall k g, nth_error (grp :: groups) (S k) = Some g -> g <> [])
    /\ (forall k g h rest,
          nth_error (grp :: groups) k = Some g ->
          nth_error (grp :: groups) (S k) = Some (h :: rest) ->
          contentHeight < Qsum g + h).
Proof.
  induction groups as [|g1 groups IH]; intros grp Hf.
  - split; intros k; destruct k; discriminate.
  - cbn [forced] in Hf. destruct Hf as [Hhead Hrest].
    destruct (IH g1 Hrest) as [Hne Hbr]. split.
    + intros [|k] g Hg.
      * cbn in Hg. injection Hg as <-. now destruct g1.
      * exact (Hne k g Hg).
    + intros [|k] g h rest Hg Hnext.
      * cbn in Hg, Hnext. injection Hg as <-. injection Hnext as ->.
        exact Hhead.
      * exact (Hbr k g h rest Hg Hnext).
Qed.

Lemma entriesFrom_length (hs : list Q) :
  forall pos,
    (1 <= length (entriesFrom contentHeight pos hs) <= S (length hs))%nat.
Proof.
  induction hs as [|h hs IH]; intros pos; cbn [entriesFrom length].
  - lia.
  - destruct (Qle_bool (pos + h) contentHeight); cbn [length].
    + specialize (IH (pos + h)). lia.
    + specialize (IH h). lia.
Qed.

Lemma Qsum_nonneg (hs : list Q) : Forall (fun h => 0 <= h) hs -> 0 <= Qsum hs.
Proof.
  induction 1 as [|h hs Hh _ IH]; cbn [Qsum]; lra.
Qed.

Lemma entriesFrom_fitting (hs : list Q) :
  forall pos,
    Forall (fun h => 0 <= h) hs ->
    pos + Qsum hs <= contentHeight ->
    exists e, entriesFrom contentHeight pos hs = [e] /\ e == pos + Qsum hs.
Proof.
  induction hs as [|h hs IH]; intros pos Hall Hfit.
  - exists pos. split; [reflexivity | cbn; ring].
  - inversion Hall as [|? ? Hh Hrest]; subst.
    pose proof (Qsum_nonneg hs Hrest) as Hsum.
    cbn [Qsum] in Hfit. cbn [entriesFrom].
    assert (Hle : pos + h <= contentHeight) by lra.
    apply Qle_bool_iff in Hle. rewrite Hle.
    destruct (IH (pos + h) Hrest ltac:(lra)) as (e & He & Hs).
    exists e. split; [exact He|]. cbn [Qsum]. rewrite Hs. ring.
Qed.

Lemma entriesFrom_nonneg (hs : list Q) :
  forall pos,
    0 <= pos ->
    Forall (fun h => 0 <= h) hs ->
    Forall (fun e => 0 <= e) (entriesFrom contentHeight pos hs).
Proof.
  induction hs as [|h hs IH]; intros pos Hpos Hall; cbn [entriesFrom].
  - now constructor.
  - inversion Hall as [|? ? Hh Hrest]; subst.
    destruct (Qle_bool (pos + h) contentHeight).
    + apply IH; [lra | exact Hrest].
    + constructor; [exact Hpos|]. now apply IH.
Qed.
End Entries.

Lemma splitElement_entriesFrom (element : Node)
    (contentWidth contentHeight : Q) (itemName groupName : string) :
  splitElement element contentWidth contentHeight itemName groupName
  = entriesFrom contentHeight 0
      (scaledItems element contentWidth itemName groupName).
Proof.
  unfold splitElement, scaledItems.
  rewrite traversingNodes_updateAll. apply finish_updateAll.
Qed.

(** Sequences of heights that denote the same numbers give entries that
    denote the same numbers. *)
Lemma entriesFrom_compat (contentHeight : Q) (hs hs' : list Q) :
  Qlist_eq hs hs' ->
  forall pos pos',
    pos == pos' ->
    Qlist_eq (entriesFrom contentHeight pos hs)
      (entriesFrom contentHeight pos' hs').
Proof.
  induction 1 as [|h h' hs hs' Hh _ IH]; intros pos pos' Hp;
    cbn [entriesFrom].
  - constructor; [exact Hp | constructor].
  - assert (E : Qle_bool (pos + h) contentHeight
                = Qle_bool (pos' + h') contentHeight).
    { apply eq_true_iff_eq. rewrite !Qle_bool_iff, Hp, Hh. reflexivity. }
    rewrite E. destruct (Qle_bool (pos' + h') contentHeight).
    + apply IH. now rewrite Hp, Hh.
    + constructor; [exact Hp | now apply IH].
Qed.

(** X1: the walk over the DOM is the run of [updatePos] over the scaled
    heights of the items in document order: how the items are nested in
    groups, and which other nodes stand between them, makes no difference.
    Two roots whose sequences of scaled item heights denote the same numbers
    get break sequences that denote the same numbers. *)
Theorem splitElement_flattens (element : Node)
    (contentWidth contentHeight : Q) (itemName groupName : string) :
  splitElement element contentWidth contentHeight itemName groupName
  = finish (updateAll contentHeight
              (scaledItems element contentWidth itemName groupName)
              (mkScan [] 0))
  /\ forall element' contentWidth',
       Qlist_eq (scaledItems element' contentWidth' itemName groupName)
         (scaledItems element contentWidth itemName groupName) ->
       Qlist_eq
         (splitElement element' contentWidth' contentHeight itemName
            groupName)
         (splitElement element contentWidth contentHeight itemName
            groupName).
Proof.
  split.
  - unfold splitElement, scaledItems.
    now rewrite traversingNodes_updateAll.
  - intros element' contentWidth' Heq.
    rewrite !splitElement_entriesFrom.
    apply entriesFrom_compat; [exact Heq | reflexivity].
Qed.

(** X1 on the example and on a root 550 wide that holds its three items
    side by side at half their height. *)
Lemma splitElement_flattens_witness :
  Qlist_eq (splitElement Sample.flatRoot 550 800 "item" "group")
    (splitElement Example.root 550 800 "item" "group").
Proof.
  apply (proj2 (splitElement_flattens Example.root 550 800 "item" "group")).
  vm_compute. repeat constructor.
Defined.


(** X3: the break sequence has at least one entry and at most one more than
    there are items. *)
Theorem splitElement_length (element : Node) (contentWidth contentHeight : Q)
    (itemName groupName : string) :
  (1 <= length (splitElement element contentWidth contentHeight itemName
                  groupName)
   <= S (length (scaledItems element contentWidth itemName groupName)))%nat.
Proof. rewrite splitElement_entriesFrom. apply entriesFrom_length. Qed.



(** X5: items of non-negative height give entries of non-negative height. *)
Theorem splitElement_nonneg (element : Node) (contentWidth contentHeight : Q)
    (itemName groupName : string) :
  Forall (fun h => 0 <= h)
    (scaledItems element contentWidth itemName groupName) ->
  Forall (fun e => 0 <= e)
    (splitElement element contentWidth contentHeight itemName groupName).
Proof.
  intros Hall. rewrite splitElement_entriesFrom.
  apply entriesFrom_nonneg; [lra | exact Hall].
Qed.

Lemma splitElement_nonneg_witness :
  Forall (fun e => 0 <= e) (splitElement Example.root 550 800 "item" "group").
Proof.
  apply (splitElement_nonneg Example.root 550 800 "item" "group").
  repeat constructor; vm_compute; discriminate.
Defined.

Section Spans.
Variable contentHeight : Q.

Lemma entriesFrom_first (hs : list Q) :
  forall pos,
    Forall (fun h => 0 <= h) hs ->
    exists e es, entriesFrom contentHeight pos hs = e :: es /\ pos <= e.
Proof.
  induction hs as [|h hs IH]; intros pos Hall; cbn [entriesFrom].
  - exists pos, []. split; [reflexivity | lra].
  - inversion Hall as [|? ? Hh Hrest]; subst.
    destruct (Qle_bool (pos + h) contentHeight).
    + destruct (IH (pos + h) Hrest) as (e & es & He & Hle).
      exists e, es. split; [exact He | lra].
    + exists pos, (entriesFrom contentHeight h hs). split; [reflexivity | lra].
Qed.

End Spans.

(** X7: a first item taller than [contentHeight] is not put on the first
    page: the break sequence starts with the entry 0, an empty first page,
    and goes on with the page of that item. *)
Theorem oversized_first_item (element : Node) (contentWidth contentHeight : Q)
    (itemName groupName : string) (h : Q) (rest : list Q) :
  scaledItems element contentWidth itemName groupName = h :: rest ->
  contentHeight < h ->
  exists e es,
    splitElement element contentWidth contentHeight itemName groupName
    = 0 :: e :: es
    /\ (Forall (fun h' => 0 <= h') rest -> h <= e).
Proof.
  intros Hitems Hover. rewrite splitElement_entriesFrom, Hitems.
  cbn [entriesFrom].
  destruct (Qle_bool (0 + h) contentHeight) eqn:Hfit;
    [apply Qle_bool_iff in Hfit; lra|].
  destruct (entriesFrom_groups contentHeight rest h)
    as (grp & groups & e & es & _ & He & _).
  exists e, es. split; [now rewrite He|].
  intros Hall.
  destruct (entriesFrom_first contentHeight rest h Hall)
    as (e' & es' & He' & Hle).
  congruence.
Qed.

Lemma oversized_first_item_witness :
  exists e es,
    splitElement Example.root 550 200 "item" "group" = 0 :: e :: es.
Proof.
  destruct (oversized_first_item Example.root 550 200 "item" "group"
              (550 / 1100 * 600) [550 / 1100 * 1200; 550 / 1100 * 200])
    as (e & es & He & _).
  { reflexivity. }
  { vm_compute. reflexivity. }
  exists e, es. exact He.
Defined.

End ScannerExtras.

(** * Further properties of the page compositor *)

Module CompositorExtras.
Import CompositorFacts.

Section FooterPolicy.
Variable html2canvas : Node -> option Canvas.
Variables (o : Options.t) (element : Node) (img : Image).
Variables (hd : option Image) (ft : Image).

Let bx := Params.baseX (paramsOf html2canvas o element img).
Let cw := Options.contentWidth o.

Hypothesis content_differs : data ft <> data img.
Hypothesis header_differs :
  forall h, hd = Some h -> headerOp bx cw h <> footerOp bx cw ft.

(** The footer stamp is on a page exactly when the policy test of the
    closure [addFooter] passes. *)
Lemma footerOp_in_pageBody (isFirst isLast : bool) (ye : Q * Q) :
  In (footerOp bx cw ft)
     (pageBody html2canvas o element img hd (Some ft) isFirst isLast ye)
  <-> isLast || negb (Options.footerOnlyLast o) = true.
Proof.
  unfold pageBody. fold bx cw. rewrite !in_app_iff. split.
  - intros [Hc | [Hb | [Hb | [Hh | Hf]]]].
    + destruct Hc as [Hc | []]. unfold contentOp, footerOp in Hc.
      injection Hc; intros; congruence.
    + destruct (negb isFirst); [|contradiction].
      destruct Hb as [Hb | [Hb | []]]; discriminate.
    + destruct (negb isLast); [|contradiction].
      destruct Hb as [Hb | [Hb | []]]; discriminate.
    + unfold stampOps in Hh.
      destruct (isFirst || negb (Options.headerOnlyFirst o)); [|contradiction].
      destruct hd as [h|]; [|contradiction].
      destruct Hh as [Hh | []]. now apply header_differs in Hh.
    + unfold stampOps in Hf.
      now destruct (isLast || negb (Options.footerOnlyLast o)).
  - intros Hb. right. right. right. right.
    unfold stampOps. rewrite Hb. now left.
Qed.

Lemma footerOp_in_pageBodies (len : nat) (yes : list (Q * Q)) (i : nat)
    (pg : Page) :
  nth_error
    (pageBodies html2canvas o element img hd (Some ft) len 0 yes) i
  = Some pg ->
  In (footerOp bx cw ft) pg
  <-> i = (len - 1)%nat \/ Options.footerOnlyLast o = false.
Proof.
  rewrite pageBodies_nth.
  destruct (nth_error yes i) as [ye|]; [|discriminate].
  cbn [option_map]. intros [= <-]. rewrite footerOp_in_pageBody.
  cbn [Nat.add]. rewrite orb_true_iff, Nat.eqb_eq, negb_true_iff.
  reflexivity.
Qed.
End FooterPolicy.

(** X8: with a footer that is an element and rasterizes to [ft], on a fresh
    document: the footer is stamped with its lower edge on the lower edge of
    the sheet, on page [i] exactly when [i] is the last page or
    [footerOnlyLast] is false, in both loops.  The footer stamp is told apart
    from the root image by its data and from the header stamp. *)
Theorem footer_stamp_policy (html2canvas : Node -> option Canvas)
    (o : Options.t) (element : Node) (img ft : Image) (elements : list Q)
    (s : State) :
  rasterizes html2canvas (Options.header o) ->
  rasterizes html2canvas (Options.footer o) ->
  freshDocument s ->
  ftOf html2canvas o s = Some ft ->
  data ft <> data img ->
  let p := paramsOf html2canvas o element img in
  let stamp :=
    Op_addImage (data ft) "JPEG" (Params.baseX p) (A4_HEIGHT - height ft)
      (Options.contentWidth o) (height ft) in
  (forall h, hdOf html2canvas o s = Some h ->
     headerOp (Params.baseX p) (Options.contentWidth o) h <> stamp) ->
  (elements <> [] ->
   exists s',
     composeAdaptive p elements s = (Ok tt, s')
     /\ forall i pg,
          nth_error (pages s') i = Some pg ->
          In stamp pg
          <-> i = (length elements - 1)%nat
              \/ Options.footerOnlyLast o = false)
  /\ (let n := pageNum (height img) (Options.contentHeight o) in
      (0 < n)%nat ->
      exists s',
        outputWithFixedSize p s = (Ok tt, s')
        /\ forall i pg,
             nth_error (pages s') i = Some pg ->
             In stamp pg
             <-> i = (n - 1)%nat \/ Options.footerOnlyLast o = false).
Proof.
  intros Hh Hf Hfresh Hft Hdata p stamp Hhead. split.
  - intros Hne.
    destruct (composeAdaptive_fresh html2canvas o element img Hh Hf
                elements s Hfresh Hne) as (s' & R & G).
    exists s'. split; [exact R|].
    intros i pg Hpg. rewrite G, Hft in Hpg.
    exact (footerOp_in_pageBodies html2canvas o element img _ ft Hdata Hhead
             _ _ _ _ Hpg).
  - intros n Hn.
    destruct (outputWithFixedSize_fresh html2canvas o element img Hh Hf
                s Hfresh Hn) as (s' & R & G).
    fold n in G.
    exists s'. split; [exact R|].
    intros i pg Hpg. rewrite G, Hft in Hpg.
    exact (footerOp_in_pageBodies html2canvas o element img _ ft Hdata Hhead
             _ _ _ _ Hpg).
Qed.

(** The footer of the example is stamped on both pages. *)
Lemma footer_stamp_policy_witness :
  let p := paramsOf Example.html2canvas Example.options Example.root
             Example.image in
  exists s',
    composeAdaptive p [300; 700] Example.start = (Ok tt, s')
    /\ forall i pg,
         nth_error (pages s') i = Some pg ->
         In (footerOp (Params.baseX p) 550 Sample.footerImage) pg
         <-> i = 1%nat \/ false = false.
Proof.
  intros p.
  destruct (footer_stamp_policy Example.html2canvas Example.options
              Example.root Example.image Sample.footerImage [300; 700]
              Example.start example_header_ok example_footer_ok
              example_fresh)
    as (Hadaptive & _).
  { reflexivity. }
  { vm_compute. discriminate. }
  { intros h Hh. vm_compute in Hh. injection Hh as <-.
    vm_compute. discriminate. }
  destruct Hadaptive as (s' & R & Hstamp).
  { discriminate. }
  exists s'. split; [exact R | exact Hstamp].
Defined.

Section PageShape.
Variable html2canvas : Node -> option Canvas.
Variables (o : Options.t) (element : Node) (img : Image).
Variables (hd ft : option Image).

Lemma countRects_pageBody (isFirst isLast : bool) (ye : Q * Q) :
  countRects (pageBody html2canvas o element img hd ft isFirst isLast ye)
  = ((if isFirst then 0 else 1) + (if isLast then 0 else 1))%nat.
Proof.
  unfold countRects, pageBody, stampOps.
  rewrite !List.filter_app, !length_app.
  destruct isFirst, isLast, (Options.headerOnlyFirst o),
    (Options.footerOnlyLast o), hd, ft; reflexivity.
Qed.

(** A page is the root image, then the blanks, then the stamps. *)
Lemma pageBody_layers (isFirst isLast : bool) (ye : Q * Q) :
  exists blanks stamps,
    pageBody html2canvas o element img hd ft isFirst isLast ye
    = contentOp html2canvas o element img (fst ye) :: blanks ++ stamps
    /\ Forall (fun op => isBlankOp op = true) blanks
    /\ Forall (fun op => isImageOp op = true) stamps.
Proof.
  unfold pageBody.
  set (above := if negb isFirst then _ else _).
  set (below := if negb isLast then _ else _).
  set (top := stampOps _ hd _).
  set (bottom := stampOps _ ft _).
  exists (above ++ below), (top ++ bottom). split.
  - cbn [app]. now rewrite <- app_assoc.
  - split; apply Forall_app; split.
    + unfold above, blankOps. destruct (negb isFirst); repeat constructor.
    + unfold below, blankOps. destruct (negb isLast); repeat constructor.
    + unfold top, stampOps.
      destruct (isFirst || negb (Options.headerOnlyFirst o)), hd;
        repeat constructor.
    + unfold bottom, stampOps.
      destruct (isLast || negb (Options.footerOnlyLast o)), ft;
        repeat constructor.
Qed.
End PageShape.

(** X9: on a fresh document, page [i] of [N] gets one blanking rectangle for
    each neighbour it has: none above on the first page, none below on the
    last, so two on an inner page and none on a single page; in both
    loops. *)
Theorem blank_count (html2canvas : Node -> option Canvas)
    (o : Options.t) (element : Node) (img : Image) (elements : list Q)
    (s : State) :
  rasterizes html2canvas (Options.header o) ->
  rasterizes html2canvas (Options.footer o) ->
  freshDocument s ->
  let p := paramsOf html2canvas o element img in
  (elements <> [] ->
   exists s',
     composeAdaptive p elements s = (Ok tt, s')
     /\ forall i pg,
          nth_error (pages s') i = Some pg ->
          countRects pg
          = ((if (i =? 0)%nat then 0 else 1)
             + (if (i =? length elements - 1)%nat then 0 else 1))%nat)
  /\ (let n := pageNum (height img) (Options.contentHeight o) in
      (0 < n)%nat ->
      exists s',
        outputWithFixedSize p s = (Ok tt, s')
        /\ forall i pg,
             nth_error (pages s') i = Some pg ->
             countRects pg
             = ((if (i =? 0)%nat then 0 else 1)
                + (if (i =? n - 1)%nat then 0 else 1))%nat).
Proof.
  intros Hh Hf Hfresh p. split.
  - intros Hne.
    destruct (composeAdaptive_fresh html2canvas o element img Hh Hf
                elements s Hfresh Hne) as (s' & R & G).
    exists s'. split; [exact R|].
    intros i pg Hpg. rewrite G, pageBodies_nth in Hpg.
    destruct (nth_error _ i) as [ye|]; [|discriminate].
    cbn [option_map Nat.add] in Hpg. injection Hpg as <-.
    apply countRects_pageBody.
  - intros n Hn.
    destruct (outputWithFixedSize_fresh html2canvas o element img Hh Hf
                s Hfresh Hn) as (s' & R & G).
    fold n in G.
    exists s'. split; [exact R|].
    intros i pg Hpg. rewrite G, pageBodies_nth in Hpg.
    destruct (nth_error _ i) as [ye|]; [|discriminate].
    cbn [option_map Nat.add] in Hpg. injection Hpg as <-.
    apply countRects_pageBody.
Qed.

Lemma blank_count_witness :
  let p := paramsOf Example.html2canvas Example.options Example.root
             Example.image in
  exists s',
    composeAdaptive p [300; 400; 300] Example.start = (Ok tt, s')
    /\ forall pg, nth_error (pages s') 1 = Some pg -> countRects pg = 2%nat.
Proof.
  intros p.
  destruct (blank_count Example.html2canvas Example.options Example.root
              Example.image [300; 400; 300] Example.start
              example_header_ok example_footer_ok example_fresh)
    as (Hadaptive & _).
  destruct Hadaptive as (s' & R & Hcount).
  { discriminate. }
  exists s'. split; [exact R|].
  intros pg Hpg. exact (Hcount 1%nat pg Hpg).
Defined.

Lemma pageNum_one (h c : Q) : 0 < h -> h <= c -> pageNum h c = 1%nat.
Proof.
  intros Hh Hc.
  pose proof (pageNum_positive h c Hh ltac:(lra)) as Hpos.
  unfold pageNum in *.
  assert (Hq : h / c <= 1) by (apply Qle_shift_div_r; lra).
  apply Qceiling_resp_le in Hq.
  change 1 with (inject_Z 1) in Hq. rewrite Qceiling_Z in Hq. lia.
Qed.

Lemma pageNum_zero (h c : Q) : h <= 0 -> 0 < c -> pageNum h c = 0%nat.
Proof.
  intros Hh Hc. unfold pageNum.
  assert (Hq : h / c <= 0) by (apply Qle_shift_div_r; lra).
  apply Qceiling_resp_le in Hq.
  change 0 with (inject_Z 0) in Hq. rewrite Qceiling_Z in Hq. lia.
Qed.

(** X10: a document of one page, that is one entry in the adaptive loop or an
    image of height [0 < h <= contentHeight] in the fixed loop, is the root
    image at [baseY] followed by the header and the footer, whatever
    [headerOnlyFirst] and [footerOnlyLast] say, and no blanking rectangle,
    no [addPage]. *)
Theorem single_page (html2canvas : Node -> option Canvas)
    (o : Options.t) (element : Node) (img : Image) (e : Q) (s : State) :
  rasterizes html2canvas (Options.header o) ->
  rasterizes html2canvas (Options.footer o) ->
  freshDocument s ->
  let p := paramsOf html2canvas o element img in
  let stamps :=
    match hdOf html2canvas o s with
    | Some hd => [headerOp (Params.baseX p) (Options.contentWidth o) hd]
    | None => []
    end
    ++ match ftOf html2canvas o s with
       | Some ft => [footerOp (Params.baseX p) (Options.contentWidth o) ft]
       | None => []
       end in
  (exists s',
     composeAdaptive p [e] s = (Ok tt, s')
     /\ pages s'
        = [contentOp html2canvas o element img (Params.baseY p - 0)
           :: stamps])
  /\ (0 < height img -> height img <= Options.contentHeight o ->
      exists s',
        outputWithFixedSize p s = (Ok tt, s')
        /\ pages s'
           = [contentOp html2canvas o element img
                (Params.baseY p - 0 * Options.contentHeight o)
              :: stamps]).
Proof.
  intros Hh Hf Hfresh p stamps. split.
  - destruct (composeAdaptive_fresh html2canvas o element img Hh Hf
                [e] s Hfresh ltac:(discriminate)) as (s' & R & G).
    exists s'. split; [exact R|]. rewrite G. reflexivity.
  - intros Hpos Hfit.
    pose proof (pageNum_one _ _ Hpos Hfit) as Hone.
    destruct (outputWithFixedSize_fresh html2canvas o element img Hh Hf
                s Hfresh ltac:(rewrite Hone; lia)) as (s' & R & G).
    exists s'. split; [exact R|]. rewrite G, Hone. reflexivity.
Qed.

Lemma single_page_witness :
  let p := paramsOf Example.html2canvas Example.options Example.root
             Sample.shortImage in
  exists s',
    outputWithFixedSize p Example.start = (Ok tt, s')
    /\ map countRects (pages s') = [0%nat]
    /\ map (@length DrawOp) (pages s') = [3%nat].
Proof.
  intros p.
  destruct (single_page Example.html2canvas Example.options Example.root
              Sample.shortImage 0 Example.start
              example_header_ok example_footer_ok example_fresh)
    as (_ & Hfixed).
  destruct Hfixed as (s' & R & G).
  { reflexivity. }
  { vm_compute. discriminate. }
  exists s'. split; [exact R|]. rewrite G. split; reflexivity.
Defined.

(** X11: on every page of both loops the root image is drawn first, then the
    blanks (fill colour and rectangle), then the header and footer images:
    the stamps are drawn over the blanks and are never covered by them. *)
Theorem page_layers (html2canvas : Node -> option Canvas)
    (o : Options.t) (element : Node) (img : Image) (elements : list Q)
    (s : State) :
  rasterizes html2canvas (Options.header o) ->
  rasterizes html2canvas (Options.footer o) ->
  freshDocument s ->
  let p := paramsOf html2canvas o element img in
  (elements <> [] ->
   exists s',
     composeAdaptive p elements s = (Ok tt, s')
     /\ forall i pg,
          nth_error (pages s') i = Some pg ->
          exists y blanks stamps,
            pg = contentOp html2canvas o element img y :: blanks ++ stamps
            /\ Forall (fun op => isBlankOp op = true) blanks
            /\ Forall (fun op => isImageOp op = true) stamps)
  /\ ((0 < pageNum (height img) (Options.contentHeight o))%nat ->
      exists s',
        outputWithFixedSize p s = (Ok tt, s')
        /\ forall i pg,
             nth_error (pages s') i = Some pg ->
             exists y blanks stamps,
               pg = contentOp html2canvas o element img y :: blanks ++ stamps
               /\ Forall (fun op => isBlankOp op = true) blanks
               /\ Forall (fun op => isImageOp op = true) stamps).
Proof.
  intros Hh Hf Hfresh p. split.
  - intros Hne.
    destruct (composeAdaptive_fresh html2canvas o element img Hh Hf
                elements s Hfresh Hne) as (s' & R & G).
    exists s'. split; [exact R|].
    intros i pg Hpg. rewrite G, pageBodies_nth in Hpg.
    destruct (nth_error _ i) as [ye|]; [|discriminate].
    cbn [option_map] in Hpg. injection Hpg as <-.
    exists (fst ye). apply pageBody_layers.
  - intros Hn.
    destruct (outputWithFixedSize_fresh html2canvas o element img Hh Hf
                s Hfresh Hn) as (s' & R & G).
    exists s'. split; [exact R|].
    intros i pg Hpg. rewrite G, pageBodies_nth in Hpg.
    destruct (nth_error _ i) as [ye|]; [|discriminate].
    cbn [option_map] in Hpg. injection Hpg as <-.
    exists (fst ye). apply pageBody_layers.
Qed.

Lemma page_layers_witness :
  let p := paramsOf Example.html2canvas Example.options Example.root
             Example.image in
  exists s',
    composeAdaptive p [300; 700] Example.start = (Ok tt, s')
    /\ forall pg,
         nth_error (pages s') 0 = Some pg ->
         exists y blanks stamps,
           pg = contentOp Example.html2canvas Example.options Example.root
                  Example.image y :: blanks ++ stamps
           /\ Forall (fun op => isBlankOp op = true) blanks
           /\ Forall (fun op => isImageOp op = true) stamps.
Proof.
  intros p.
  destruct (page_layers Example.html2canvas Example.options Example.root
              Example.image [300; 700] Example.start
              example_header_ok example_footer_ok example_fresh)
    as (Hadaptive & _).
  destruct Hadaptive as (s' & R & Hlayers).
  { discriminate. }
  exists s'. split; [exact R|].
  intros pg Hpg. exact (Hlayers 0%nat pg Hpg).
Defined.

(** X13: when nothing was rendered ([height <= 0], with a positive
    [contentHeight]) the fixed loop has no page to compose: it draws nothing,
    stamps neither header nor footer, calls no rasterizer and leaves the
    document with its one blank page. *)
Theorem fixed_mode_nothing_rendered (html2canvas : Node -> option Canvas)
    (o : Options.t) (element : Node) (img : Image) (s : State) :
  height img <= 0 ->
  0 < Options.contentHeight o ->
  outputWithFixedSize (paramsOf html2canvas o element img) s = (Ok tt, s).
Proof.
  intros Hh Hc. unfold outputWithFixedSize.
  cbn [paramsOf Params.height Params.contentHeight].
  pose proof (pageNum_zero _ _ Hh Hc) as Hzero. unfold pageNum in Hzero.
  rewrite Hzero. reflexivity.
Qed.

Lemma fixed_mode_nothing_rendered_witness :
  outputWithFixedSize
    (paramsOf Example.html2canvas Example.options Example.root
       Sample.emptyImage) Example.start
  = (Ok tt, Example.start).
Proof.
  apply (fixed_mode_nothing_rendered Example.html2canvas Example.options
           Example.root Sample.emptyImage Example.start).
  - vm_compute. discriminate.
  - reflexivity.
Defined.

End CompositorExtras.

(** * Properties of a whole call of [outputPdf] *)

Module CallExtras.
Import CompositorFacts.

Lemma bind_throw {A B} (m : M A) (f : A -> M B) (s s1 : State) (e : Error) :
  m s = (Throw e, s1) -> bind m f s = (Throw e, s1).
Proof. intros H. unfold bind. now rewrite H. Qed.

(** ** No artifact before the end *)

Lemma keeps_ret {A} (a : A) : keepsExports (ret a).
Proof. intros s. reflexivity. Qed.

Lemma keeps_bind {A B} (m : M A) (f : A -> M B) :
  keepsExports m -> (forall a, keepsExports (f a)) -> keepsExports (bind m f).
Proof.
  intros Hm Hf s. unfold bind. specialize (Hm s).
  destruct (m s) as [[a|e] s1]; cbn [snd] in *.
  - now rewrite (Hf a s1).
  - exact Hm.
Qed.

Lemma keeps_when (c : bool) (m : M unit) :
  keepsExports m -> keepsExports (when c m).
Proof. destruct c; [trivial | intros _; apply keeps_ret]. Qed.

Lemma keeps_forEach {A} (xs : list A) (body : A -> M unit) :
  (forall x, keepsExports (body x)) -> keepsExports (forEach xs body).
Proof.
  intros Hbody. induction xs as [|x xs IH]; cbn [forEach].
  - apply keeps_ret.
  - apply keeps_bind; [apply Hbody | intros _; exact IH].
Qed.

Lemma keeps_draw (op : DrawOp) : keepsExports (draw op).
Proof. intros s. reflexivity. Qed.

Lemma keeps_addPage : keepsExports addPage.
Proof. intros s. reflexivity. Qed.

Lemma keeps_new_jsPDF : keepsExports new_jsPDF.
Proof. intros s. reflexivity. Qed.

Lemma keeps_addBlank (x y w h : Q) : keepsExports (addBlank x y w h).
Proof.
  unfold addBlank. apply keeps_bind; [|intros _]; apply keeps_draw.
Qed.

Section Keeps.
Variable html2canvas : Node -> option Canvas.

Lemma keeps_call_html2canvas (element : Node) :
  keepsExports (call_html2canvas html2canvas element).
Proof.
  intros s. unfold call_html2canvas.
  now destruct (html2canvas element).
Qed.

Lemma keeps_toCanvas (element : Node) (w : Q) :
  keepsExports (toCanvas html2canvas element w).
Proof.
  unfold toCanvas. apply keeps_bind.
  - apply keeps_call_html2canvas.
  - intros c. apply keeps_ret.
Qed.

Lemma keeps_addHeader (x w : Q) (v : JsValue) :
  keepsExports (addHeader html2canvas x w v).
Proof.
  unfold addHeader. destruct (as_HTMLElement v) as [el|]; [|apply keeps_ret].
  apply keeps_bind; [intros s; reflexivity|]. intros cached.
  apply keeps_bind; [|intros hd; apply keeps_draw].
  destruct cached as [hd|]; [apply keeps_ret|].
  apply keeps_bind; [apply keeps_toCanvas|]. intros hd.
  apply keeps_bind; [intros s; reflexivity | intros _; apply keeps_ret].
Qed.

Lemma keeps_addFooter (x w : Q) (v : JsValue) :
  keepsExports (addFooter html2canvas x w v).
Proof.
  unfold addFooter. destruct (as_HTMLElement v) as [el|]; [|apply keeps_ret].
  apply keeps_bind; [intros s; reflexivity|]. intros cached.
  apply keeps_bind; [|intros ft; apply keeps_draw].
  destruct cached as [ft|]; [apply keeps_ret|].
  apply keeps_bind; [apply keeps_toCanvas|]. intros ft.
  apply keeps_bind; [intros s; reflexivity | intros _; apply keeps_ret].
Qed.

Variables (o : Options.t) (element : Node) (img : Image).

Lemma keeps_pageM (len i : nat) (ye : Q * Q) :
  keepsExports (pageM html2canvas o element img len i ye).
Proof.
  unfold pageM. cbn [paramsOf Params.addImage Params.addHeader
    Params.addFooter].
  apply keeps_bind; [apply keeps_draw | intros _].
  apply keeps_bind; [apply keeps_when, keeps_addBlank | intros _].
  apply keeps_bind; [apply keeps_when, keeps_addBlank | intros _].
  apply keeps_bind; [apply keeps_when, keeps_addHeader | intros _].
  apply keeps_bind; [apply keeps_when, keeps_addFooter | intros _].
  apply keeps_when, keeps_addPage.
Qed.

Lemma keeps_pagesLoop (len : nat) (yes : list (Q * Q)) :
  forall i, keepsExports (pagesLoop html2canvas o element img len i yes).
Proof.
  induction yes as [|ye rest IH]; intros i; cbn [pagesLoop].
  - apply keeps_ret.
  - apply keeps_bind; [apply keeps_pageM | intros _; apply IH].
Qed.

Lemma keeps_outputWithAdaptive :
  keepsExports (outputWithAdaptive (paramsOf html2canvas o element img)).
Proof.
  intros s. unfold outputWithAdaptive, composeAdaptive.
  rewrite adaptiveLoop_pagesLoop. apply keeps_pagesLoop.
Qed.

Lemma keeps_outputWithFixedSize :
  keepsExports (outputWithFixedSize (paramsOf html2canvas o element img)).
Proof.
  unfold outputWithFixedSize. apply keeps_forEach. intros i.
  apply (keeps_pageM _ i (fixedSlice html2canvas o element img i)).
Qed.
End Keeps.

Lemma output2_artifact (outputType filename : string) (s : State) :
  output2 outputType filename s
  = (Ok (artifactOf outputType filename (pages s)),
     mkState (html2canvas_calls s) (finished s) (current s)
       (__header s) (__footer s)
       (exported s ++ [artifactOf outputType filename (pages s)])).
Proof.
  unfold output2, artifactOf.
  destruct (String.eqb outputType "file");
    [|destruct (String.eqb outputType "save")]; reflexivity.
Qed.

(** X14: there is no partial output.  Whatever the options, the rasterizer
    and the state before, a call of [outputPdf] that returns has written
    exactly one artifact, the one it returns, built from the pages of the
    finished document; a call that throws, be it for the invalid root or for
    a rejected rasterization of the root, the header or the footer, has
    written none. *)
Theorem outputPdf_no_partial_output (html2canvas : Node -> option Canvas)
    (o : Options.t) (s : State) :
  match outputPdf html2canvas o s with
  | (Ok a, s') =>
      exported s' = exported s ++ [a]
      /\ a = artifactOf (Options.outputType o) (Options.filename o) (pages s')
  | (Throw _, s') => exported s' = exported s
  end.
Proof.
  unfold outputPdf.
  destruct (as_HTMLElement (Options.element o)) as [el|]; [|reflexivity].
  set (loop := fun img : Image =>
         if String.eqb (Options.mode o) "adaptive"
         then outputWithAdaptive (paramsOf html2canvas o el img)
         else outputWithFixedSize (paramsOf html2canvas o el img)).
  assert (Hloop : forall img, keepsExports (loop img)).
  { intros img. unfold loop. destruct (String.eqb _ _).
    - apply keeps_outputWithAdaptive.
    - apply keeps_outputWithFixedSize. }
  pose proof (keeps_new_jsPDF s) as H0.
  unfold bind at 1. destruct (new_jsPDF s) as [[[]|e0] s0]; cbn [snd] in H0;
    [|exact H0].
  pose proof (keeps_toCanvas html2canvas el (Options.contentWidth o) s0) as H1.
  unfold bind at 1.
  destruct (toCanvas html2canvas el (Options.contentWidth o) s0)
    as [[img|e1] s1]; cbn [snd] in H1; [|congruence].
  pose proof (Hloop img s1) as H2. fold (loop img).
  unfold bind at 1. destruct (loop img s1) as [[[]|e2] s2]; cbn [snd] in H2;
    [|congruence].
  rewrite output2_artifact. cbn [exported].
  split; [congruence | reflexivity].
Qed.

(** ** From the call to the page loop *)

Section Calls.
Variable html2canvas : Node -> option Canvas.
Variables (o : Options.t) (el : Node) (c : Canvas).
Hypothesis root_is_element : as_HTMLElement (Options.element o) = Some el.
Hypothesis root_rasterizes : html2canvas el = Some c.

Let img : Image := imageOf c (Options.contentWidth o).
Let yes : list (Q * Q) := slicesOf html2canvas o el img.

Lemma outputPdf_pagesLoop (s : State) :
  outputPdf html2canvas o s
  = bind (pagesLoop html2canvas o el img (length yes) 0 yes)
      (fun _ => output2 (Options.outputType o) (Options.filename o))
      (loopStart el s).
Proof.
  unfold outputPdf. rewrite root_is_element.
  unfold bind at 1. cbn [new_jsPDF].
  unfold bind at 1, toCanvas, bind at 1, call_html2canvas.
  cbn [html2canvas_calls finished current __header __footer exported].
  rewrite root_rasterizes. cbn [ret]. fold (imageOf c (Options.contentWidth o)).
  fold img. fold (loopStart el s).
  unfold yes, slicesOf.
  destruct (String.eqb (Options.mode o) "adaptive").
  - set (l := adaptiveSlices html2canvas o el img 0 _).
    assert (Hloop : outputWithAdaptive (paramsOf html2canvas o el img)
                      (loopStart el s)
                    = pagesLoop html2canvas o el img (length l) 0 l
                        (loopStart el s)).
    { unfold outputWithAdaptive, composeAdaptive, l.
      cbn [paramsOf Params.element Params.contentWidth Params.contentHeight
           Params.itemName Params.groupName].
      now rewrite adaptiveLoop_pagesLoop, adaptiveSlices_length. }
    unfold bind. now rewrite Hloop.
  - set (l := map (fixedSlice html2canvas o el img) _).
    assert (Hloop : outputWithFixedSize (paramsOf html2canvas o el img)
                      (loopStart el s)
                    = pagesLoop html2canvas o el img (length l) 0 l
                        (loopStart el s)).
    { unfold l. rewrite length_map, length_seq, <- forEach_pagesLoop.
      unfold outputWithFixedSize. rewrite length_seq. reflexivity. }
    unfold bind. now rewrite Hloop.
Qed.
Lemma slices_nonempty :
  Options.mode o = "adaptive"%string
  \/ (0 < pageNum (height img) (Options.contentHeight o))%nat ->
  yes <> [].
Proof.
  unfold yes, slicesOf. intros [Hmode | Hn].
  - rewrite Hmode. cbn [String.eqb Ascii.eqb Bool.eqb].
    pose proof (splitElement_nonempty el (Options.contentWidth o)
                  (Options.contentHeight o) (Options.itemName o)
                  (Options.groupName o)) as Hne.
    destruct (Scanner.splitElement _ _ _ _ _); [congruence | discriminate].
  - destruct (String.eqb _ _).
    + pose proof (splitElement_nonempty el (Options.contentWidth o)
                    (Options.contentHeight o) (Options.itemName o)
                    (Options.groupName o)) as Hne.
      destruct (Scanner.splitElement _ _ _ _ _); [congruence | discriminate].
    + destruct (pageNum _ _); [lia | discriminate].
Qed.

Lemma stampHeader_rejected (x w : Q) (v : JsValue) (hel : Node) (s : State) :
  as_HTMLElement v = Some hel ->
  html2canvas hel = None ->
  __header s = None ->
  exists s',
    addHeader html2canvas x w v s = (Throw (Rejected hel), s')
    /\ html2canvas_calls s' = html2canvas_calls s ++ [hel]
    /\ exported s' = exported s.
Proof.
  intros Hel Hrej Hc. eexists.
  unfold addHeader, bind, get_header, toCanvas, bind, call_html2canvas.
  rewrite Hel, Hc, Hrej. repeat split; reflexivity.
Qed.

Lemma stampFooter_rejected (x w : Q) (v : JsValue) (fel : Node) (s : State) :
  as_HTMLElement v = Some fel ->
  html2canvas fel = None ->
  __footer s = None ->
  exists s',
    addFooter html2canvas x w v s = (Throw (Rejected fel), s').
Proof.
  intros Hel Hrej Hc. eexists.
  unfold addFooter, bind, get_footer, toCanvas, bind, call_html2canvas.
  rewrite Hel, Hc, Hrej. reflexivity.
Qed.

(** The first page stamps the header: a rejected header stops the loop. *)
Lemma pagesLoop_header_rejected (hel : Node) (len : nat) (ye : Q * Q)
    (rest : list (Q * Q)) (s : State) :
  as_HTMLElement (Options.header o) = Some hel ->
  html2canvas hel = None ->
  __header s = None ->
  exists s',
    pagesLoop html2canvas o el img len 0 (ye :: rest) s
    = (Throw (Rejected hel), s')
    /\ html2canvas_calls s' = html2canvas_calls s ++ [hel]
    /\ exported s' = exported s.
Proof.
  intros Hel Hrej Hc.
  cbn [pagesLoop]. unfold pageM.
  cbn [paramsOf Params.addImage Params.addHeader Params.addFooter
       Params.baseX Params.baseY Nat.eqb orb negb when].
  set (bx := match Options.x o with Some x => x | None => _ end).
  set (by_ := match Options.y o with Some y => y | None => _ end).
  destruct (draw_run (Op_addImage (data img) "JPEG" bx (fst ye)
                        (width img) (height img)) s)
    as (s1 & R1 & C1 & _ & _ & H1 & _ & X1).
  destruct (blank_run (negb (0 =? len - 1)%nat) 0 (by_ + snd ye) A4_WIDTH
              (A4_HEIGHT - (by_ + snd ye)) s1)
    as (s3 & R3 & C3 & _ & _ & H3 & _ & X3).
  destruct (stampHeader_rejected bx (Options.contentWidth o)
              (Options.header o) hel s3 Hel Hrej ltac:(congruence))
    as (s4 & R4 & C4 & X4).
  exists s4. split; [|split; congruence].
  apply bind_throw.
  erewrite bind_ok by exact R1.
  erewrite bind_ok by reflexivity.
  erewrite bind_ok by exact R3.
  apply bind_throw. exact R4.
Qed.

Section FooterRejected.
Hypothesis header_ok : rasterizes html2canvas (Options.header o).
Variable fel : Node.
Hypothesis footer_is_element : as_HTMLElement (Options.footer o) = Some fel.
Hypothesis footer_rejected : html2canvas fel = None.

(** A page either stamps the footer, and throws, or goes on to the next
    page with the footer still to be rasterized. *)
Lemma pageM_footer_rejected (len i : nat) (ye : Q * Q) (s : State) :
  __footer s = None ->
  if (i =? len - 1)%nat || negb (Options.footerOnlyLast o)
  then exists s',
         pageM html2canvas o el img len i ye s = (Throw (Rejected fel), s')
  else exists s1,
         pageM html2canvas o el img len i ye s = (Ok tt, s1)
         /\ __footer s1 = None.
Proof.
  intros Hc. unfold pageM.
  cbn [paramsOf Params.addImage Params.addHeader Params.addFooter
       Params.baseX Params.baseY].
  set (bx := match Options.x o with Some x => x | None => _ end).
  set (by_ := match Options.y o with Some y => y | None => _ end).
  set (isLast := (i =? len - 1)%nat).
  destruct (draw_run (Op_addImage (data img) "JPEG" bx (fst ye)
                        (width img) (height img)) s)
    as (s1 & R1 & _ & _ & _ & _ & T1 & _).
  destruct (blank_run (negb (i =? 0)%nat) 0 0 A4_WIDTH by_ s1)
    as (s2 & R2 & _ & _ & _ & _ & T2 & _).
  destruct (blank_run (negb isLast) 0 (by_ + snd ye) A4_WIDTH
              (A4_HEIGHT - (by_ + snd ye)) s2)
    as (s3 & R3 & _ & _ & _ & _ & T3 & _).
  destruct (stampHeader_run html2canvas
              ((i =? 0)%nat || negb (Options.headerOnlyFirst o)) bx
              (Options.contentWidth o) (Options.header o) s3 header_ok)
    as (s4 & R4 & _ & _ & _ & _ & _ & _ & T4 & _).
  assert (Hc4 : __footer s4 = None) by congruence.
  destruct (isLast || negb (Options.footerOnlyLast o)) eqn:HbF.
  - destruct (stampFooter_rejected bx (Options.contentWidth o)
                (Options.footer o) fel s4 footer_is_element footer_rejected
                Hc4) as (s5 & R5).
    exists s5.
    erewrite bind_ok by exact R1.
    erewrite bind_ok by exact R2.
    erewrite bind_ok by exact R3.
    erewrite bind_ok by exact R4.
    apply bind_throw. exact R5.
  - apply orb_false_iff in HbF as [Hlast _]. rewrite Hlast.
    destruct (addPage_run true s4) as (s6 & R6 & _ & _ & _ & _ & T6 & _).
    exists s6. split; [|congruence].
    erewrite bind_ok by exact R1.
    erewrite bind_ok by exact R2.
    rewrite Hlast in R3. erewrite bind_ok by exact R3.
    erewrite bind_ok by exact R4.
    erewrite bind_ok by reflexivity.
    exact R6.
Qed.

(** Some page stamps the footer, the last at the latest: a rejected footer
    stops the loop. *)
Lemma pagesLoop_footer_rejected (len : nat) (l : list (Q * Q)) :
  forall i s,
    l <> [] ->
    len = (i + length l)%nat ->
    __footer s = None ->
    exists s',
      pagesLoop html2canvas o el img len i l s = (Throw (Rejected fel), s').
Proof.
  induction l as [|ye rest IH]; intros i s Hne Hlen Hc; [congruence|].
  cbn [pagesLoop].
  pose proof (pageM_footer_rejected len i ye s Hc) as Hpage.
  destruct ((i =? len - 1)%nat || negb (Options.footerOnlyLast o)) eqn:HbF.
  - destruct Hpage as (s' & R). exists s'. now apply bind_throw.
  - destruct Hpage as (s1 & R & Hc1).
    apply orb_false_iff in HbF as [Hlast _]. apply Nat.eqb_neq in Hlast.
    destruct (IH (S i) s1) as (s' & R'); [| |exact Hc1|].
    + destruct rest; [cbn [length] in Hlen; lia | discriminate].
    + cbn [length] in Hlen. lia.
    + exists s'. erewrite bind_ok by exact R. exact R'.
Qed.
End FooterRejected.
End Calls.

(** X15: a rejected rasterization of the root is thrown as it is: the
    rasterizer was called once, for the root, nothing is drawn on the new
    document and no artifact is written. *)
Theorem outputPdf_root_rejected (html2canvas : Node -> option Canvas)
    (o : Options.t) (el : Node) (s : State) :
  as_HTMLElement (Options.element o) = Some el ->
  html2canvas el = None ->
  exists s',
    outputPdf html2canvas o s = (Throw (Rejected el), s')
    /\ html2canvas_calls s' = html2canvas_calls s ++ [el]
    /\ pages s' = [[]]
    /\ exported s' = exported s.
Proof.
  intros Hel Hrej. eexists. unfold outputPdf. rewrite Hel.
  unfold bind at 1. cbn [new_jsPDF].
  unfold bind at 1, toCanvas, bind at 1, call_html2canvas.
  rewrite Hrej. repeat split; reflexivity.
Qed.

Lemma outputPdf_root_rejected_witness :
  exists s',
    outputPdf Sample.rejectAll Example.options Example.start
    = (Throw (Rejected Example.root), s')
    /\ html2canvas_calls s' = [Example.root]
    /\ pages s' = [[]]
    /\ exported s' = [].
Proof.
  apply (outputPdf_root_rejected Sample.rejectAll Example.options
           Example.root Example.start); reflexivity.
Defined.

(** X16: when the header is an element whose rasterization is rejected and
    there is a page to compose (always so in adaptive mode), the call throws
    that rejection on the first page: the rasterizer was called for the root
    and then for the header, and no artifact is written. *)
Theorem outputPdf_header_rejected (html2canvas : Node -> option Canvas)
    (o : Options.t) (el hel : Node) (c : Canvas) (s : State) :
  as_HTMLElement (Options.element o) = Some el ->
  html2canvas el = Some c ->
  as_HTMLElement (Options.header o) = Some hel ->
  html2canvas hel = None ->
  Options.mode o = "adaptive"%string
  \/ (0 < pageNum (height (imageOf c (Options.contentWidth o)))
            (Options.contentHeight o))%nat ->
  exists s',
    outputPdf html2canvas o s = (Throw (Rejected hel), s')
    /\ html2canvas_calls s' = html2canvas_calls s ++ [el; hel]
    /\ exported s' = exported s.
Proof.
  intros Hel Hc Hhel Hrej Hpage.
  pose proof (slices_nonempty html2canvas o el c Hpage) as Hne.
  rewrite (outputPdf_pagesLoop html2canvas o el c Hel Hc).
  destruct (slicesOf html2canvas o el (imageOf c (Options.contentWidth o)))
    as [|ye rest]; [congruence|].
  destruct (pagesLoop_header_rejected html2canvas o el c hel
              (length (ye :: rest)) ye rest (loopStart el s) Hhel Hrej
              eq_refl) as (s' & R & Cs & X).
  exists s'. split; [now apply bind_throw|]. split.
  - rewrite Cs. cbn [loopStart html2canvas_calls]. now rewrite <- app_assoc.
  - exact X.
Qed.

Lemma outputPdf_header_rejected_witness :
  exists s',
    outputPdf Sample.noBanner Example.options Example.start
    = (Throw (Rejected Example.banner), s')
    /\ html2canvas_calls s' = [Example.root; Example.banner]
    /\ exported s' = [].
Proof.
  apply (outputPdf_header_rejected Sample.noBanner Example.options
           Example.root Example.banner (mkCanvas 1100 2000 "root")
           Example.start); try reflexivity.
  left. reflexivity.
Defined.

(** X17: when the footer is an element whose rasterization is rejected, the
    header being fine, and there is a page to compose, the call throws that
    rejection, on the first page that stamps the footer, and writes no
    artifact although pages may have been composed before. *)
Theorem outputPdf_footer_rejected (html2canvas : Node -> option Canvas)
    (o : Options.t) (el fel : Node) (c : Canvas) (s : State) :
  as_HTMLElement (Options.element o) = Some el ->
  html2canvas el = Some c ->
  rasterizes html2canvas (Options.header o) ->
  as_HTMLElement (Options.footer o) = Some fel ->
  html2canvas fel = None ->
  Options.mode o = "adaptive"%string
  \/ (0 < pageNum (height (imageOf c (Options.contentWidth o)))
            (Options.contentHeight o))%nat ->
  exists s',
    outputPdf html2canvas o s = (Throw (Rejected fel), s')
    /\ exported s' = exported s.
Proof.
  intros Hel Hc Hh Hfel Hrej Hpage.
  pose proof (slices_nonempty html2canvas o el c Hpage) as Hne.
  rewrite (outputPdf_pagesLoop html2canvas o el c Hel Hc).
  set (l := slicesOf html2canvas o el (imageOf c (Options.contentWidth o)))
    in *.
  destruct (pagesLoop_footer_rejected html2canvas o el c Hh fel Hfel Hrej
              (length l) l 0%nat (loopStart el s) Hne eq_refl eq_refl)
    as (s' & R).
  exists s'. split; [now apply bind_throw|].
  pose proof (keeps_pagesLoop html2canvas o el
                (imageOf c (Options.contentWidth o)) (length l) l 0%nat
                (loopStart el s)) as Hkeep.
  fold l in R. rewrite R in Hkeep. exact Hkeep.
Qed.

Lemma outputPdf_footer_rejected_witness :
  exists s',
    outputPdf Sample.noFootnote Example.options Example.start
    = (Throw (Rejected Example.footnote), s')
    /\ exported s' = [].
Proof.
  apply (outputPdf_footer_rejected Sample.noFootnote Example.options
           Example.root Example.footnote (mkCanvas 1100 2000 "root")
           Example.start); try reflexivity.
  - vm_compute. discriminate.
  - left. reflexivity.
Defined.

End CallExtras.
